(** * shad-butler: the tag-indexed post directory of [main.py]

    A shallow embedding of the footer parser, the DynamoDB (de)serializer,
    the chat synchronizer, the forwarder and the future-events selector of
    [main.py], with the properties of the directory stated over it.

    Python values are modelled as follows.
    - [str] is a list of Unicode code points ([pystr]);
    - [int] is [Z];
    - [None]-able values are [option];
    - a [dict] is a [gmap];
    - an exception is a constructor of [exn], and a computation that may
      raise returns an [outcome]. *)

From Stdlib Require Import ZArith NArith Lia String Ascii Decimal DecimalZ.
From Stdlib Require Import Sorting.Sorted Sorting.Permutation.
From stdpp Require Import base option list gmap fin_maps sorting.

Local Open Scope N_scope.

(* ===================================================================== *)
(** * Python strings                                                      *)
(* ===================================================================== *)

(** A Python [str]: a sequence of Unicode code points. *)
Abbreviation pystr := (list N).

(** Source literals are written as Rocq strings (UTF-8 bytes) and decoded
    to code points. *)
Fixpoint bytes_of_string (s : string) : list N :=
  match s with
  | EmptyString => []
  | String a s' => N_of_ascii a :: bytes_of_string s'
  end.

Fixpoint utf8_decode (bs : list N) : pystr :=
  match bs with
  | [] => []
  | b0 :: r0 =>
    if b0 <? 128 then b0 :: utf8_decode r0
    else match r0 with
    | [] => []
    | b1 :: r1 =>
      if b0 <? 224 then ((b0 - 192) * 64 + (b1 - 128)) :: utf8_decode r1
      else match r1 with
      | [] => []
      | b2 :: r2 =>
        if b0 <? 240
        then ((b0 - 224) * 4096 + (b1 - 128) * 64 + (b2 - 128)) :: utf8_decode r2
        else match r2 with
        | [] => []
        | b3 :: r3 =>
          ((b0 - 240) * 262144 + (b1 - 128) * 4096 + (b2 - 128) * 64 + (b3 - 128))
            :: utf8_decode r3
        end
      end
    end
  end.

Definition str (s : string) : pystr := utf8_decode (bytes_of_string s).

(** [str.isspace] of one code point, which is also what [\s] matches in a
    [str] pattern: the ASCII table of CPython ([_Py_ascii_whitespace]) and
    the Unicode white-space code points ([_PyUnicode_IsWhitespace]). *)
Definition whitespace_codes : list N :=
  [9; 10; 11; 12; 13; 28; 29; 30; 31; 32; 133; 160; 5760;
   8192; 8193; 8194; 8195; 8196; 8197; 8198; 8199; 8200; 8201; 8202;
   8232; 8233; 8239; 8287; 12288].

Definition is_space (c : N) : bool := existsb (N.eqb c) whitespace_codes.

(** What [\d] matches in a [str] pattern: every code point of Unicode
    category Nd (decimal digit), given as inclusive ranges (Unicode 14). *)
Definition decimal_ranges : list (N * N) :=
  [(48, 57); (1632, 1641); (1776, 1785); (1984, 1993); (2406, 2415);
   (2534, 2543); (2662, 2671); (2790, 2799); (2918, 2927); (3046, 3055);
   (3174, 3183); (3302, 3311); (3430, 3439); (3558, 3567); (3664, 3673);
   (3792, 3801); (3872, 3881); (4160, 4169); (4240, 4249); (6112, 6121);
   (6160, 6169); (6470, 6479); (6608, 6617); (6784, 6793); (6800, 6809);
   (6992, 7001); (7088, 7097); (7232, 7241); (7248, 7257); (42528, 42537);
   (43216, 43225); (43264, 43273); (43472, 43481); (43504, 43513);
   (43600, 43609); (44016, 44025); (65296, 65305); (66720, 66729);
   (68912, 68921); (69734, 69743); (69872, 69881); (69942, 69951);
   (70096, 70105); (70384, 70393); (70736, 70745); (70864, 70873);
   (71248, 71257); (71360, 71369); (71472, 71481); (71904, 71913);
   (72016, 72025); (72784, 72793); (73040, 73049); (73120, 73129);
   (92768, 92777); (92864, 92873); (93008, 93017); (120782, 120831);
   (123200, 123209); (123632, 123641); (125264, 125273); (130032, 130041)].

Definition is_decimal (c : N) : bool :=
  existsb (fun r => (fst r <=? c) && (c <=? snd r)) decimal_ranges.

(** The ten ASCII digits, the only ones [date.fromisoformat] and the
    model of [int] read. *)
Definition is_ascii_digit (c : N) : bool := (48 <=? c) && (c <=? 57).

Definition digit_value (c : N) : Z := Z.of_N (c - 48).

(* ===================================================================== *)
(** * Exceptions                                                          *)
(* ===================================================================== *)

(** The exceptions [main.py] meets.  [MessageToForwardNotFound] and
    [MessageIdInvalid] are the two aiogram exceptions [forward_post]
    catches; [TransportError] stands for any other failure of the chat
    transport, told apart by a code. *)
Inductive exn : Type :=
| ValueError
| TypeError
| KeyError
| MessageToForwardNotFound
| MessageIdInvalid
| TransportError (code : nat).

Inductive outcome (A : Type) : Type :=
| Ok (a : A)
| Raised (e : exn).
Arguments Ok {A} a.
Arguments Raised {A} e.

Definition obind {A B} (x : outcome A) (f : A -> outcome B) : outcome B :=
  match x with
  | Ok a => f a
  | Raised e => Raised e
  end.

#[global] Instance outcome_ret : MRet outcome := fun A a => Ok a.
#[global] Instance outcome_bind : MBind outcome := fun A B f x => obind x f.

(** [d[k]] on a dict: [KeyError] when the key is absent. *)
Definition getitem `{Countable K} {V} (d : gmap K V) (k : K) : outcome V :=
  match d !! k with
  | Some v => Ok v
  | None => Raised KeyError
  end.

(* ===================================================================== *)
(** * [str(int)] and [int(str)]                                           *)
(* ===================================================================== *)

Fixpoint uint_codes (d : Decimal.uint) : pystr :=
  match d with
  | Nil => []
  | D0 d => 48 :: uint_codes d
  | D1 d => 49 :: uint_codes d
  | D2 d => 50 :: uint_codes d
  | D3 d => 51 :: uint_codes d
  | D4 d => 52 :: uint_codes d
  | D5 d => 53 :: uint_codes d
  | D6 d => 54 :: uint_codes d
  | D7 d => 55 :: uint_codes d
  | D8 d => 56 :: uint_codes d
  | D9 d => 57 :: uint_codes d
  end.

(** [str(n)] for an [int]: the decimal digits, after a minus sign for a
    negative number. *)
Definition str_of_int (z : Z) : pystr :=
  match Z.to_int z with
  | Pos d => uint_codes d
  | Neg d => 45 :: uint_codes d
  end.

Definition digit_cons (c : N) (d : Decimal.uint) : option Decimal.uint :=
  match c with
  | 48 => Some (D0 d)
  | 49 => Some (D1 d)
  | 50 => Some (D2 d)
  | 51 => Some (D3 d)
  | 52 => Some (D4 d)
  | 53 => Some (D5 d)
  | 54 => Some (D6 d)
  | 55 => Some (D7 d)
  | 56 => Some (D8 d)
  | 57 => Some (D9 d)
  | _ => None
  end.

Fixpoint codes_uint (s : pystr) : option Decimal.uint :=
  match s with
  | [] => Some Nil
  | c :: s' =>
    match codes_uint s' with
    | Some d => digit_cons c d
    | None => None
    end
  end.

(** [int(s)] on the strings a number attribute holds: an optional minus
    sign and one or more ASCII digits.  Anything else is a [ValueError]
    here (Python's [int] also reads a plus sign, surrounding white space,
    underscores and other decimal digits, which [str] never writes). *)
Definition int_of_str (s : pystr) : outcome Z :=
  match s with
  | [] => Raised ValueError
  | c :: s' =>
    if c =? 45 then
      match s', codes_uint s' with
      | _ :: _, Some d => Ok (Z.of_int (Neg d))
      | _, _ => Raised ValueError
      end
    else
      match codes_uint s with
      | Some d => Ok (Z.of_int (Pos d))
      | None => Raised ValueError
      end
  end.

(* ===================================================================== *)
(** * Regular expressions                                                 *)
(* ===================================================================== *)

(** The fragment of Python's [re] the two footer patterns use, matched
    the way [re] does: a backtracking matcher that tries alternatives
    from left to right, repeats greedily, and records the text of each
    capture group. *)
Module Re.

Inductive atom : Type :=
| Chr (c : N)        (* a literal character *)
| Space              (* \s *)
| Digit.             (* \d *)

Inductive regex : Type :=
| Empty
| Atom (a : atom)
| Plus (a : atom)            (* a+ , greedy *)
| Seq (r1 r2 : regex)
| Alt (r1 r2 : regex)        (* r1|r2 , r1 first *)
| Group (r : regex).         (* (r) *)

Definition atom_matches (a : atom) (c : N) : bool :=
  match a with
  | Chr c' => N.eqb c' c
  | Space => is_space c
  | Digit => is_decimal c
  end.

(** A literal word. *)
Fixpoint lit (w : pystr) : regex :=
  match w with
  | [] => Empty
  | c :: w' => Seq (Atom (Chr c)) (lit w')
  end.

(** [r1 r2 ... rn] and [r|r1|...|rn]. *)
Fixpoint seqs (rs : list regex) : regex :=
  match rs with
  | [] => Empty
  | r :: rs' => Seq r (seqs rs')
  end.

Fixpoint alts (r : regex) (rs : list regex) : regex :=
  match rs with
  | [] => r
  | r' :: rs' => Alt r (alts r' rs')
  end.

(** The matcher in continuation-passing style: [k] is given the text
    left after the match and the groups captured so far; a [None] from
    it makes the matcher backtrack. *)
Definition cont (R : Type) : Type := pystr -> list pystr -> option R.

Fixpoint plus_loop {R} (a : atom) (s : pystr) (caps : list pystr)
    (k : cont R) : option R :=
  match s with
  | [] => None
  | c :: s' =>
    if atom_matches a c then
      match plus_loop a s' caps k with
      | Some x => Some x
      | None => k s' caps
      end
    else None
  end.

Fixpoint rmatch {R} (r : regex) (s : pystr) (caps : list pystr)
    (k : cont R) : option R :=
  match r with
  | Empty => k s caps
  | Atom a =>
    match s with
    | c :: s' => if atom_matches a c then k s' caps else None
    | [] => None
    end
  | Plus a => plus_loop a s caps k
  | Seq r1 r2 => rmatch r1 s caps (fun s' caps' => rmatch r2 s' caps' k)
  | Alt r1 r2 =>
    match rmatch r1 s caps k with
    | Some x => Some x
    | None => rmatch r2 s caps k
    end
  | Group r' =>
    rmatch r' s caps
      (fun s' caps' => k s' (caps' ++ [take (length s - length s') s]))
  end.

(** [pattern.match(s)]: a match anchored at the start of [s]; the
    result is [match.groups()]. *)
Definition match_here (r : regex) (s : pystr) : option (list pystr) :=
  rmatch r s [] (fun _ caps => Some caps).

(** [pattern.search(s)]: the match at the leftmost position that has
    one. *)
Fixpoint search (r : regex) (s : pystr) : option (list pystr) :=
  match match_here r s with
  | Some caps => Some caps
  | None =>
    match s with
    | [] => None
    | _ :: s' => search r s'
    end
  end.

End Re.

(* ===================================================================== *)
(** * Dates                                                               *)
(* ===================================================================== *)

Local Open Scope Z_scope.

(** A [datetime.date].  Python builds one only through a constructor that
    checks the fields ([date_valid]). *)
Record Date : Type := mkDate { year : Z; month : Z; day : Z }.

#[global] Instance Date_eq_dec : EqDecision Date.
Proof. solve_decision. Defined.

Definition is_leap (y : Z) : bool :=
  (y mod 4 =? 0) && (negb (y mod 100 =? 0) || (y mod 400 =? 0)).

Definition days_in_month (y m : Z) : Z :=
  if m =? 2 then (if is_leap y then 29 else 28)
  else if (m =? 4) || (m =? 6) || (m =? 9) || (m =? 11) then 30
  else 31.

(** [MINYEAR <= year <= MAXYEAR], [1 <= month <= 12],
    [1 <= day <= days_in_month]. *)
Definition date_valid (d : Date) : bool :=
  (1 <=? year d) && (year d <=? 9999) &&
  (1 <=? month d) && (month d <=? 12) &&
  (1 <=? day d) && (day d <=? days_in_month (year d) (month d)).

(** [a >= b] on dates: by year, then month, then day. *)
Definition date_ge (a b : Date) : bool :=
  (year b <? year a) ||
  ((year b =? year a) &&
   ((month b <? month a) ||
    ((month b =? month a) && (day b <=? day a)))).

Definition date_le (a b : Date) : bool := date_ge b a.

(** [a < b] on dates, the comparison [list.sort] uses. *)
Definition date_lt (a b : Date) : bool := negb (date_ge a b).

(** [date.fromisoformat] on the form [YYYY-MM-DD]: ten characters, ASCII
    digits around two hyphens, then the constructor's range checks.  Every
    failure is a [ValueError].  (From Python 3.11 on the function reads a
    few more ISO forms, none of them ten characters of this shape.) *)
Definition fromisoformat (s : pystr) : outcome Date :=
  match s with
  | [y1; y2; y3; y4; h1; m1; m2; h2; d1; d2] =>
    if forallb is_ascii_digit [y1; y2; y3; y4; m1; m2; d1; d2]
       && N.eqb h1 45 && N.eqb h2 45
    then
      let d := mkDate
        (1000 * digit_value y1 + 100 * digit_value y2
         + 10 * digit_value y3 + digit_value y4)
        (10 * digit_value m1 + digit_value m2)
        (10 * digit_value d1 + digit_value d2) in
      if date_valid d then Ok d else Raised ValueError
    else Raised ValueError
  | _ => Raised ValueError
  end.

Definition digit_code (z : Z) : N := (48 + Z.to_N (z mod 10))%N.

(** [date.isoformat]: ["%04d-%02d-%02d"]. *)
Definition isoformat (d : Date) : pystr :=
  [digit_code (year d / 1000); digit_code (year d / 100);
   digit_code (year d / 10); digit_code (year d); 45%N;
   digit_code (month d / 10); digit_code (month d); 45%N;
   digit_code (day d / 10); digit_code (day d)].

(* ===================================================================== *)
(** * Posts and post footers                                              *)
(* ===================================================================== *)

Definition CONTACTS : pystr := str "contacts".
Definition CHATS : pystr := str "chats".
Definition EVENT : pystr := str "event".
Definition EVENTS_ARCHIVE : pystr := str "events_archive".
Definition LECTURES_ARCHIVE : pystr := str "lectures_archive".
Definition WHOIS_HOWTO : pystr := str "whois_howto".

(** The dataclass [Post]. *)
Record Post : Type := mkPost {
  message_id : Z;
  type : pystr;
  event_date : option Date
}.

(** The dataclass [PostFooter]. *)
Module PostFooter.
Record t : Type := mk {
  type : pystr;
  event_date : option Date
}.
End PostFooter.

(** [find_posts]: the posts matching the given [message_id] or the given
    [type].  A filter that is [None], [0] or the empty string is falsy and
    selects nothing. *)
Definition truthy_int (o : option Z) : option Z :=
  match o with
  | Some 0 => None
  | _ => o
  end.

Definition truthy_str (o : option pystr) : option pystr :=
  match o with
  | Some [] => None
  | _ => o
  end.

Definition find_posts_test (mid : option Z) (ty : option pystr) (post : Post)
    : bool :=
  match truthy_int mid with
  | Some m => if Z.eqb (message_id post) m then true
              else match truthy_str ty with
                   | Some t => bool_decide (type post = t)
                   | None => false
                   end
  | None => match truthy_str ty with
            | Some t => bool_decide (type post = t)
            | None => false
            end
  end.

Definition find_posts (posts : list Post) (mid : option Z)
    (ty : option pystr) : list Post :=
  List.filter (find_posts_test mid ty) posts.

(** [find_post]: the first of [find_posts], or [None]. *)
Definition find_post (posts : list Post) (mid : option Z)
    (ty : option pystr) : option Post :=
  head (find_posts posts mid ty).

(** [#event\s+(\d\d\d\d-\d\d-\d\d)], compiled with [re.X]: the line
    breaks of the source pattern are not part of it. *)
Definition EVENT_POST_FOOTER_PATTERN : Re.regex :=
  Re.seqs
    [Re.lit (str "#" ++ EVENT);
     Re.Plus Re.Space;
     Re.Group
       (Re.seqs
          [Re.Atom Re.Digit; Re.Atom Re.Digit; Re.Atom Re.Digit;
           Re.Atom Re.Digit; Re.Atom (Re.Chr 45%N);
           Re.Atom Re.Digit; Re.Atom Re.Digit; Re.Atom (Re.Chr 45%N);
           Re.Atom Re.Digit; Re.Atom Re.Digit])].

(** [#(chats|contacts|events_archive|lectures_archive|whois_howto)] *)
Definition NAV_POST_FOOTER_PATTERN : Re.regex :=
  Re.seqs
    [Re.lit (str "#");
     Re.Group
       (Re.alts (Re.lit CHATS)
          [Re.lit CONTACTS; Re.lit EVENTS_ARCHIVE; Re.lit LECTURES_ARCHIVE;
           Re.lit WHOIS_HOWTO])].

(** [parse_post_footer].  [x, = match.groups()] unpacks a tuple of one
    element and raises [ValueError] on any other size. *)
Definition parse_post_footer (text : pystr) : outcome (option PostFooter.t) :=
  match Re.search EVENT_POST_FOOTER_PATTERN text with
  | Some groups =>
    match groups with
    | [event_date] =>
      event_date ← fromisoformat event_date;
      mret (Some (PostFooter.mk EVENT (Some event_date)))
    | _ => Raised ValueError
    end
  | None =>
    match Re.search NAV_POST_FOOTER_PATTERN text with
    | Some groups =>
      match groups with
      | [type] => mret (Some (PostFooter.mk type None))
      | _ => Raised ValueError
      end
    | None => mret None
    end
  end.

(* ===================================================================== *)
(** * The DynamoDB table of posts                                         *)
(* ===================================================================== *)

(** The type tags [S] and [N] of attribute values. *)
Module Dynamo.
Definition S : pystr := str "S".
Definition N : pystr := str "N".
End Dynamo.

(** An attribute value is a dict from a type tag to a string, an item a
    dict from attribute names to attribute values. *)
Abbreviation AttributeValue := (gmap pystr pystr).
Abbreviation Item := (gmap pystr AttributeValue).

(** [dynamo_parse_post]. *)
Definition dynamo_parse_post (item : Item) : outcome Post :=
  a ← getitem item (str "message_id");
  n ← getitem a Dynamo.N;
  message_id ← int_of_str n;
  a ← getitem item (str "type");
  type ← getitem a Dynamo.S;
  event_date ←
    match item !! str "event_date" with
    | Some a =>
      s ← getitem a Dynamo.S;
      d ← fromisoformat s;
      mret (Some d)
    | None => mret None
    end;
  mret (mkPost message_id type event_date).

(** [dynamo_format_post].  A [date] is always truthy, so the test
    [if post.event_date] is a test for [None]. *)
Definition dynamo_format_post (post : Post) : Item :=
  let item : Item :=
    {[ str "type" := {[ Dynamo.S := type post ]};
       str "message_id" := {[ Dynamo.N := str_of_int (message_id post) ]} ]} in
  match event_date post with
  | Some d => <[ str "event_date" := {[ Dynamo.S := isoformat d ]} ]> item
  | None => item
  end.

Definition POSTS_TABLE : pystr := str "posts".
Definition MESSAGE_ID_KEY : pystr := str "message_id".

(** The table [posts].  Its hash key is the number attribute [message_id],
    so the table holds at most one item per key value: a map from the key
    to the item. *)
Abbreviation Table := (gmap Z Item).

(** The number an item carries in its key attribute. *)
Definition item_key (item : Item) : outcome Z :=
  a ← getitem item MESSAGE_ID_KEY;
  n ← getitem a Dynamo.N;
  int_of_str n.

(** [dynamo_scan]: the items, in an order of the store's choosing. *)
Definition dynamo_scan (table : Table) : list Item := (map_to_list table).*2.

(** [dynamo_put]: [put_item] inserts the item, or replaces the one that
    has the same key. *)
Definition dynamo_put (table : Table) (item : Item) : outcome Table :=
  key ← item_key item;
  mret (<[ key := item ]> table).

(** [dynamo_delete]: the request names the key by [str(key_value)]. *)
Definition dynamo_delete (table : Table) (key_value : Z) : Table :=
  delete key_value table.

(* ===================================================================== *)
(** * The bot and its effects                                             *)
(* ===================================================================== *)

(** What the bot has sent: a message of [CHAT_ID] forwarded to a chat, or
    a text answered to a chat. *)
Inductive Sent : Type :=
| Forwarded (chat_id from_chat_id message_id : Z)
| Answered (chat_id : Z) (text : pystr).

(** The state the handlers act on: the table behind [context.db] and the
    messages sent so far. *)
Record World : Type := mkWorld {
  posts_table : Table;
  outbox : list Sent
}.

(** An incoming [aiogram] message: [message.message_id],
    [message.chat.id] and [message.text] (which is [None] for a message
    without text). *)
Module Message.
Record t : Type := mk {
  message_id : Z;
  chat_id : Z;
  text : option pystr
}.
End Message.

(** The chat transport: [forward_message chat_id from_chat_id message_id]
    tells whether Telegram forwards the message or fails, and how. *)
Record Bot : Type := mkBot {
  forward_message : Z -> Z -> Z -> outcome unit
}.

(** A handler is a coroutine over the world that returns or raises; what
    it did before raising stays done. *)
Definition M (A : Type) : Type := World -> outcome A * World.

#[global] Instance M_ret : MRet M := fun A a w => (Ok a, w).
#[global] Instance M_bind : MBind M := fun A B f m w =>
  match m w with
  | (Ok a, w') => f a w'
  | (Raised e, w') => (Raised e, w')
  end.

Definition lift {A} (o : outcome A) : M A := fun w => (o, w).

(** The final world of a handler run. *)
Definition exec {A} (m : M A) (w : World) : World := snd (m w).

(** [read_posts], [put_post], [delete_post]. *)
Definition read_posts : M (list Post) := fun w =>
  (mapM dynamo_parse_post (dynamo_scan (posts_table w)), w).

Definition put_post (post : Post) : M unit := fun w =>
  match dynamo_put (posts_table w) (dynamo_format_post post) with
  | Ok table => (Ok (), mkWorld table (outbox w))
  | Raised e => (Raised e, w)
  end.

Definition delete_post (message_id : Z) : M unit := fun w =>
  (Ok (), mkWorld (dynamo_delete (posts_table w) message_id) (outbox w)).

(** [message.answer(text=text)]. *)
Definition answer (message : Message.t) (text : pystr) : M unit := fun w =>
  (Ok (), mkWorld (posts_table w)
            (outbox w ++ [Answered (Message.chat_id message) text])).

Definition NO_FUTURE_EVENTS_TEXT : pystr :=
  str "В ближайшее время нет эвентов. Список прошедших — /" ++ EVENTS_ARCHIVE.

(** [MISSING_POSTS_TEXT.format(type=type)] *)
Definition MISSING_POSTS_TEXT (type : pystr) : pystr :=
  str "Не нашел постов с тегом #" ++ type ++ str ".".

(** [MISSING_FORWARD_TEXT.format(url=url)] *)
Definition MISSING_FORWARD_TEXT (url : pystr) : pystr :=
  str "Хотел переслать пост " ++ url
  ++ str ", но он исчез. Удалил из своей базы.".

(** [message_url] *)
Definition message_url (chat_id message_id : Z) : pystr :=
  let chat_id := -1000000000000 - chat_id in
  str "https://t.me/c/" ++ str_of_int chat_id ++ str "/"
  ++ str_of_int message_id.

(* ===================================================================== *)
(** * Handlers                                                            *)
(* ===================================================================== *)

(** [posts[:cap]]: a negative [cap] counts from the end. *)
Definition slice_to {A} (cap : Z) (l : list A) : list A :=
  if cap <? 0 then take (length l - Z.to_nat (- cap)) l
  else take (Z.to_nat cap) l.

(** The comprehension of [select_future]: [_.event_date >= today] raises
    [TypeError] at a post whose [event_date] is [None]. *)
Fixpoint filter_future (today : Date) (posts : list Post)
    : outcome (list Post) :=
  match posts with
  | [] => mret []
  | post :: posts' =>
    match event_date post with
    | None => Raised TypeError
    | Some d =>
      rest ← filter_future today posts';
      mret (if date_ge d today then post :: rest else rest)
    end
  end.

(** [posts.sort(key=lambda _: _.event_date)]: the keys are computed, the
    list is sorted on them with [<] alone, and posts of equal keys keep
    their order (the sort is stable; a [None] key, which [select_future]
    has filtered out before, is the [TypeError] of its comparison). *)
Fixpoint insert_by_key (x : Date * Post) (l : list (Date * Post))
    : list (Date * Post) :=
  match l with
  | [] => [x]
  | y :: l' =>
    if date_lt (fst y) (fst x) then y :: insert_by_key x l'
    else x :: y :: l'
  end.

Fixpoint sort_by_key (l : list (Date * Post)) : list (Date * Post) :=
  match l with
  | [] => []
  | x :: l' => insert_by_key x (sort_by_key l')
  end.

Definition event_date_key (post : Post) : outcome (Date * Post) :=
  match event_date post with
  | Some d => Ok (d, post)
  | None => Raised TypeError
  end.

Definition sort_by_event_date (posts : list Post) : outcome (list Post) :=
  keyed ← mapM event_date_key posts;
  mret ((sort_by_key keyed).*2).

(** [select_future]; [today] is [Datetime.now().date()]. *)
Definition select_future (today : Date) (posts : list Post) (cap : Z)
    : outcome (list Post) :=
  posts ← filter_future today posts;
  posts ← sort_by_event_date posts;
  mret (slice_to cap posts).

(** What [handle_future_events_command] selects: the posts found by
    [find_posts(posts, type=EVENT)], passed to [select_future].  (The
    handler leaves [cap] at its default, 3.) *)
Definition select_future_events (today : Date) (posts : list Post) (cap : Z)
    : outcome (list Post) :=
  select_future today (find_posts posts None (Some EVENT)) cap.

Section Handlers.

(** [CHAT_ID], read from the environment, and [context.bot]. *)
Variable CHAT_ID : Z.
Variable bot : Bot.

(** [forward_post] *)
Definition forward_post (message : Message.t) (post : Post) : M unit :=
  fun w =>
    match forward_message bot (Message.chat_id message) CHAT_ID
            (message_id post) with
    | Ok _ =>
      (Ok (), mkWorld (posts_table w)
                (outbox w ++ [Forwarded (Message.chat_id message) CHAT_ID
                                (message_id post)]))
    | Raised MessageToForwardNotFound | Raised MessageIdInvalid =>
      (delete_post (message_id post);;
       let url := message_url CHAT_ID (message_id post) in
       let text := MISSING_FORWARD_TEXT url in
       answer message text) w
    | Raised e => (Raised e, w)
    end.

Fixpoint forward_posts (message : Message.t) (posts : list Post) : M unit :=
  match posts with
  | [] => mret ()
  | post :: posts' =>
    forward_post message post;; forward_posts message posts'
  end.

(** [handle_future_events_command] *)
Definition handle_future_events_command (today : Date)
    (message : Message.t) : M unit :=
  posts ← read_posts;
  let posts := find_posts posts None (Some EVENT) in
  match posts with
  | [] => answer message (MISSING_POSTS_TEXT EVENT)
  | _ =>
    posts ← lift (select_future today posts 3);
    match posts with
    | [] => answer message NO_FUTURE_EVENTS_TEXT
    | _ => forward_posts message posts
    end
  end.

(** [handle_nav_command] *)
Definition handle_nav_command (message : Message.t) (type : pystr)
    : M unit :=
  posts ← read_posts;
  match find_post posts None (Some type) with
  | Some post => forward_post message post
  | None => answer message (MISSING_POSTS_TEXT type)
  end.

End Handlers.

(** [new_post] *)
Definition new_post (message : Message.t) (footer : PostFooter.t) : M unit :=
  let post := mkPost (Message.message_id message) (PostFooter.type footer)
                (PostFooter.event_date footer) in
  put_post post.

(** [parse_post_footer(message.text)]: [search] raises [TypeError] on a
    text that is [None]. *)
Definition parse_message_footer (message : Message.t)
    : outcome (option PostFooter.t) :=
  match Message.text message with
  | Some text => parse_post_footer text
  | None => Raised TypeError
  end.

(** [handle_chat_new_message] *)
Definition handle_chat_new_message (message : Message.t) : M unit :=
  footer ← lift (parse_message_footer message);
  match footer with
  | Some footer => new_post message footer
  | None => mret ()
  end.

(** [handle_chat_edited_message] *)
Definition handle_chat_edited_message (message : Message.t) : M unit :=
  footer ← lift (parse_message_footer message);
  match footer with
  | Some footer => new_post message footer
  | None =>
    posts ← read_posts;
    match find_post posts (Some (Message.message_id message)) None with
    | Some post => delete_post (message_id post)
    | None => mret ()
    end
  end.

(* ===================================================================== *)
(** * Vocabulary of the statements                                        *)
(* ===================================================================== *)

(** The five navigation categories. *)
Definition NAV_TYPES : list pystr :=
  [CHATS; CONTACTS; EVENTS_ARCHIVE; LECTURES_ARCHIVE; WHOIS_HOWTO].

(** Ten characters of the shape [YYYY-MM-DD]: decimal digits around two
    hyphens. *)
Definition date_shaped (d : pystr) : bool :=
  match d with
  | [y1; y2; y3; y4; h1; m1; m2; h2; d1; d2] =>
    forallb is_decimal [y1; y2; y3; y4; m1; m2; d1; d2]
    && N.eqb h1 45 && N.eqb h2 45
  | _ => false
  end.

(** The text has, at offset [i], the event tag, white space and the
    date-shaped string [d]. *)
Definition event_tag_at (text : pystr) (i : nat) (d : pystr) : Prop :=
  (i <= length text)%nat /\
  exists ws rest,
    drop i text = (str "#" ++ EVENT) ++ ws ++ d ++ rest /\
    ws <> [] /\ forallb is_space ws = true /\ date_shaped d = true.

(** The text has, at offset [i], the tag of the navigation category
    [ty]. *)
Definition nav_tag_at (text : pystr) (i : nat) (ty : pystr) : Prop :=
  (i <= length text)%nat /\ ty ∈ NAV_TYPES /\
  exists rest, drop i text = str "#" ++ ty ++ rest.

(** No event tag, or no navigation tag, starts left of offset [i]. *)
Definition no_event_tag_before (text : pystr) (i : nat) : Prop :=
  forall j d, (j < i)%nat -> ~ event_tag_at text j d.

Definition no_nav_tag_before (text : pystr) (i : nat) : Prop :=
  forall j ty, (j < i)%nat -> ~ nav_tag_at text j ty.

Definition no_event_tag (text : pystr) : Prop :=
  forall j d, ~ event_tag_at text j d.

Definition no_nav_tag (text : pystr) : Prop :=
  forall j ty, ~ nav_tag_at text j ty.

(** The date group [(\d\d\d\d-\d\d-\d\d)]. *)
Definition date_group : Re.regex :=
  Re.Group
    (Re.seqs
       [Re.Atom Re.Digit; Re.Atom Re.Digit; Re.Atom Re.Digit;
        Re.Atom Re.Digit; Re.Atom (Re.Chr 45%N);
        Re.Atom Re.Digit; Re.Atom Re.Digit; Re.Atom (Re.Chr 45%N);
        Re.Atom Re.Digit; Re.Atom Re.Digit]).

(** The alternatives of the navigation pattern,
    [chats|contacts|events_archive|lectures_archive|whois_howto]. *)
Definition nav_alts : Re.regex :=
  Re.alts (Re.lit CHATS)
    [Re.lit CONTACTS; Re.lit EVENTS_ARCHIVE; Re.lit LECTURES_ARCHIVE;
     Re.lit WHOIS_HOWTO].

(** A continuation that fails on every text starting with white space,
    as the date group does: before it, [\s+] consumes the whole run of
    white space. *)
Definition rejects_space {R} (k : Re.cont R) : Prop :=
  forall c s caps, is_space c = true -> k (c :: s) caps = None.

(** The data-model invariant of a post and of a footer: a date exactly
    on the type [event]. *)
Definition post_dated_iff_event (post : Post) : Prop :=
  is_Some (event_date post) <-> type post = EVENT.

Definition footer_dated_iff_event (footer : PostFooter.t) : Prop :=
  is_Some (PostFooter.event_date footer) <-> PostFooter.type footer = EVENT.

(** The post [new_post] builds from a message and the footer of its
    text. *)
Definition footer_post (message : Message.t) (footer : PostFooter.t) : Post :=
  mkPost (Message.message_id message) (PostFooter.type footer)
    (PostFooter.event_date footer).

(** The table holds the post: under the key [message_id], the item the
    post is formatted to. *)
Definition stored (w : World) (post : Post) : Prop :=
  posts_table w !! message_id post = Some (dynamo_format_post post).

(** Every item of the table can be read as a post. *)
Definition readable (table : Table) : Prop :=
  forall key item, table !! key = Some item ->
    exists post, dynamo_parse_post item = Ok post.

(** A post of type [event] dated [today] or later. *)
Definition is_future_event (today : Date) (post : Post) : bool :=
  bool_decide (type post = EVENT) &&
  match event_date post with
  | Some d => date_ge d today
  | None => false
  end.

(** A post dated [today] or later. *)
Definition on_or_after (today : Date) (post : Post) : bool :=
  match event_date post with
  | Some d => date_ge d today
  | None => false
  end.

(** The posts of a list that carry the date [d], in the order of the
    list. *)
Definition dated (d : Date) (posts : list Post) : list Post :=
  List.filter (fun post => bool_decide (event_date post = Some d)) posts.

(** Ascending by [event_date]. *)
Definition event_date_le (p q : Post) : Prop :=
  match event_date p, event_date q with
  | Some d, Some e => date_le d e = true
  | _, _ => False
  end.

(** The order of the decorated list: ascending keys. *)
Definition key_le (x y : Date * Post) : Prop := date_le (fst x) (fst y) = true.

(* ===================================================================== *)
(** * The rest of the store interface and the membership middleware       *)
(* ===================================================================== *)

(** [dynamo_get]: [response.get('Item')], the item stored under the key
    named by [str(key_value)], or [None]. *)
Definition dynamo_get (table : Table) (key_value : Z) : option Item :=
  table !! key_value.

(** What DynamoDB keeps of a table with hash key [message_id]: every item
    carries, in its key attribute, the key it is stored under. *)
Definition keyed (table : Table) : Prop :=
  forall key item, table !! key = Some item -> item_key item = Ok key.

(** [aiogram.types.ChatType] and [aiogram.types.ChatMemberStatus]
    ([BANNED] is aiogram's other name of [KICKED]). *)
Inductive ChatType : Type :=
| SENDER | PRIVATE | GROUP | SUPERGROUP | CHANNEL.

Inductive ChatMemberStatus : Type :=
| CREATOR | ADMINISTRATOR | MEMBER | RESTRICTED | LEFT | BANNED.

(** What [bot.get_chat_member] does: it returns a member with a status,
    raises [UserNotFound], or raises something else. *)
Inductive chat_member_result : Type :=
| ChatMember (status : ChatMemberStatus)
| UserNotFound
| ChatMemberError (e : exn).

(** What [on_pre_process_message] does to the handling of a message: it
    returns, and the handlers run, or it raises [CancelHandler], and they
    do not. *)
Inductive verdict : Type :=
| Proceed
| CancelHandler.

(** An incoming message as the middleware reads it: the message, with
    [message.chat.type] and [message.from_user.id]. *)
Record Update : Type := mkUpdate {
  update_message : Message.t;
  chat_type : ChatType;
  from_user_id : Z
}.

Definition NOT_CHAT_MEMBER_TEXT : pystr :=
  str "Не нашел тебя в чате выпускников ШАДа. "
  ++ str "Напиши, пожалуйста, кураторам. "
  ++ str "Бот отвечает только тем кто в чатике.".

Section Middleware.

Variable CHAT_ID : Z.
(** [bot.get_chat_member(chat_id, user_id)] *)
Variable get_chat_member : Z -> Z -> chat_member_result.

(** [is_chat_member] *)
Definition is_chat_member (chat_id user_id : Z) : outcome bool :=
  match get_chat_member chat_id user_id with
  | UserNotFound => Ok false
  | ChatMemberError e => Raised e
  | ChatMember status =>
    match status with
    | LEFT | BANNED => Ok false
    | _ => Ok true
    end
  end.

(** [ChatMemberMiddleware.on_pre_process_message] *)
Definition on_pre_process_message (update : Update) : M verdict :=
  let message := update_message update in
  match chat_type update with
  | PRIVATE =>
    member ← lift (is_chat_member CHAT_ID (from_user_id update));
    if (member : bool) then mret Proceed
    else (answer message NOT_CHAT_MEMBER_TEXT;; mret CancelHandler)
  | _ =>
    if Message.chat_id message =? CHAT_ID then mret Proceed
    else mret CancelHandler
  end.

End Middleware.

(** What a run leaves behind, compared with the world before: the table
    has lost keys at most, and at most [n] messages were sent. *)
Definition drops_and_sends (n : nat) (w w' : World) : Prop :=
  posts_table w' ⊆ posts_table w /\
  exists sent, outbox w' = outbox w ++ sent /\ (length sent <= n)%nat.

(** A table as the bot itself writes it: every item is the item of a post
    that is stored under its [message_id], has a date exactly when its
    type is [event], and whose date, if any, is a valid date. *)
Definition directory_ok (table : Table) : Prop :=
  forall key item, table !! key = Some item ->
    exists post,
      item = dynamo_format_post post /\ message_id post = key /\
      post_dated_iff_event post /\
      (forall d, event_date post = Some d -> date_valid d = true).

(** An answer of the transport that [forward_post] copes with: the
    message is forwarded, or is reported as not found. *)
Definition tolerated (r : outcome unit) : Prop :=
  r = Ok () \/ r = Raised MessageToForwardNotFound \/ r = Raised MessageIdInvalid.

(** Whether the transport reports the message of a post as not found,
    what [forward_post] then sends for the post, and what is left of a
    table once the posts of a list were forwarded. *)
Definition stale (CHAT_ID : Z) (bot : Bot) (message : Message.t) (post : Post)
    : bool :=
  match forward_message bot (Message.chat_id message) CHAT_ID
          (message_id post) with
  | Raised MessageToForwardNotFound | Raised MessageIdInvalid => true
  | _ => false
  end.

Definition reply_to (CHAT_ID : Z) (bot : Bot) (message : Message.t)
    (post : Post) : Sent :=
  if stale CHAT_ID bot message post
  then Answered (Message.chat_id message)
         (MISSING_FORWARD_TEXT (message_url CHAT_ID (message_id post)))
  else Forwarded (Message.chat_id message) CHAT_ID (message_id post).

Definition drop_stale (CHAT_ID : Z) (bot : Bot) (message : Message.t)
    (posts : list Post) (table : Table) : Table :=
  fold_left
    (fun table post =>
       if stale CHAT_ID bot message post
       then delete (message_id post) table else table)
    posts table.

(* ===================================================================== *)
(** * Characters, numbers and dates                                       *)
(* ===================================================================== *)

Lemma space_not_decimal c : is_space c = true -> is_decimal c = false.
Proof.
  unfold is_space, whitespace_codes. cbn [existsb].
  rewrite !orb_true_iff. intros H.
  repeat (destruct H as [H | H]; [apply N.eqb_eq in H; subst c; reflexivity|]).
  discriminate.
Qed.

Lemma ascii_digit_decimal c : is_ascii_digit c = true -> is_decimal c = true.
Proof.
  intros H. unfold is_decimal, decimal_ranges. cbn [existsb fst snd].
  unfold is_ascii_digit in H. rewrite H. reflexivity.
Qed.

Lemma codes_uint_codes d : codes_uint (uint_codes d) = Some d.
Proof. induction d; cbn [uint_codes codes_uint]; rewrite ?IHd; reflexivity. Qed.

Lemma uint_codes_head d :
  d <> Nil -> exists c s, uint_codes d = c :: s /\ is_ascii_digit c = true.
Proof. destruct d; [congruence|..]; intros _; cbn [uint_codes]; eauto. Qed.

(** [int(str(n)) == n]. *)
Lemma int_of_str_of_int z : int_of_str (str_of_int z) = Ok z.
Proof.
  unfold str_of_int.
  assert (Hnn : match Z.to_int z with Pos d | Neg d => d <> Nil end).
  { destruct z; cbn; try apply DecimalPos.Unsigned.to_uint_nonnil. discriminate. }
  pose proof (DecimalZ.of_to z) as Hz.
  destruct (Z.to_int z) as [d | d];
    destruct (uint_codes_head d Hnn) as (c & s & E & Hc).
  - assert (Hcu : codes_uint (c :: s) = Some d)
      by (rewrite <- E; apply codes_uint_codes).
    rewrite E. unfold int_of_str.
    assert (Hne : (c =? 45)%N = false).
    { unfold is_ascii_digit in Hc. apply andb_true_iff in Hc as [H1 _].
      apply N.leb_le in H1. apply N.eqb_neq. lia. }
    rewrite Hne, Hcu, Hz. reflexivity.
  - cbn [int_of_str N.eqb Pos.eqb]. rewrite E.
    rewrite <- E, codes_uint_codes, Hz. reflexivity.
Qed.

Lemma digit_code_ascii z : is_ascii_digit (digit_code z) = true.
Proof.
  unfold is_ascii_digit, digit_code.
  pose proof (Z.mod_pos_bound z 10 eq_refl).
  apply andb_true_iff; split; apply N.leb_le; lia.
Qed.

Lemma digit_value_code z : digit_value (digit_code z) = z mod 10.
Proof.
  unfold digit_value, digit_code.
  pose proof (Z.mod_pos_bound z 10 eq_refl). lia.
Qed.

Lemma date_valid_bounds d :
  date_valid d = true ->
  1 <= year d <= 9999 /\ 1 <= month d <= 12 /\ 1 <= day d <= 31.
Proof.
  unfold date_valid, days_in_month. rewrite !andb_true_iff, !Z.leb_le.
  intros [[[[[? ?] ?] ?] ?] Hd].
  repeat split; try assumption.
  repeat match type of Hd with context [if ?b then _ else _] => destruct b end;
    lia.
Qed.

(** [date.fromisoformat(d.isoformat()) == d]. *)
Lemma fromisoformat_isoformat d :
  date_valid d = true -> fromisoformat (isoformat d) = Ok d.
Proof.
  intros Hv. destruct (date_valid_bounds d Hv) as (Hy & Hm & Hd).
  unfold isoformat, fromisoformat. cbn [forallb].
  rewrite !digit_code_ascii, !digit_value_code. cbn [andb N.eqb Pos.eqb].
  replace (mkDate _ _ _) with d.
  - rewrite Hv. reflexivity.
  - destruct d as [y m dd]. cbn [year month day] in *. f_equal.
    all: Z.to_euclidean_division_equations; lia.
Qed.

(** [date.fromisoformat] returns a valid date or raises [ValueError]. *)
Lemma fromisoformat_Ok_valid s d : fromisoformat s = Ok d -> date_valid d = true.
Proof.
  unfold fromisoformat.
  do 11 (destruct s as [|? s]; try discriminate).
  destruct (_ && _ && _); try discriminate.
  destruct (date_valid _) eqn:E; try discriminate.
  intros [= <-]. exact E.
Qed.

Lemma fromisoformat_Raised s e : fromisoformat s = Raised e -> e = ValueError.
Proof.
  unfold fromisoformat.
  do 11 (destruct s as [|? s]; try (intros [= <-]; reflexivity)).
  destruct (_ && _ && _); try (intros [= <-]; reflexivity).
  destruct (date_valid _); try discriminate.
  intros [= <-]; reflexivity.
Qed.

(* ===================================================================== *)
(** * The matcher                                                         *)
(* ===================================================================== *)

Section ReFacts.

Context {R : Type}.
Implicit Types (k : Re.cont R) (s w : pystr) (caps : list pystr).

(** A literal word matches exactly when the text starts with it. *)
Lemma rmatch_lit_app w s caps k :
  Re.rmatch (Re.lit w) (w ++ s) caps k = k s caps.
Proof.
  induction w as [|c w IH]; [reflexivity|].
  cbn [Re.lit Re.rmatch app Re.atom_matches]. rewrite N.eqb_refl. apply IH.
Qed.

Lemma rmatch_lit_Some w s caps k x :
  Re.rmatch (Re.lit w) s caps k = Some x ->
  exists s', s = w ++ s' /\ k s' caps = Some x.
Proof.
  revert s. induction w as [|c w IH]; intros s H.
  - exists s. split; [reflexivity | exact H].
  - cbn [Re.lit Re.rmatch Re.atom_matches] in H.
    destruct s as [|c' s]; [discriminate|].
    destruct (N.eqb_spec c c') as [<- | ?]; [|discriminate].
    apply IH in H as (s' & -> & Hk). exists s'. split; [reflexivity | exact Hk].
Qed.

Lemma rmatch_lit_None w s caps k :
  (forall s', s <> w ++ s') -> Re.rmatch (Re.lit w) s caps k = None.
Proof.
  intros Hn. destruct (Re.rmatch (Re.lit w) s caps k) eqn:E; [|reflexivity].
  apply rmatch_lit_Some in E as (s' & -> & _). exfalso. eapply Hn. reflexivity.
Qed.

Lemma plus_loop_spaces ws rest caps k :
  ws <> [] -> forallb is_space ws = true ->
  rejects_space k -> k [] caps = None ->
  (forall c rest', rest = c :: rest' -> is_space c = false) ->
  Re.plus_loop Re.Space (ws ++ rest) caps k = k rest caps.
Proof.
  intros Hne Hws Hk Hnil Hrest.
  induction ws as [|c ws IH]; [congruence|].
  cbn [forallb] in Hws. apply andb_true_iff in Hws as [Hc Hws].
  cbn [app Re.plus_loop Re.atom_matches]. rewrite Hc.
  destruct ws as [|c' ws].
  - cbn [app]. destruct rest as [|r rest'].
    + cbn [Re.plus_loop]. reflexivity.
    + cbn [Re.plus_loop Re.atom_matches].
      rewrite (Hrest r rest' eq_refl). reflexivity.
  - rewrite IH by (congruence || assumption).
    destruct (k rest caps) eqn:E; [reflexivity|].
    cbn [forallb] in Hws. apply andb_true_iff in Hws as [Hc' _].
    cbn [app]. apply Hk, Hc'.
Qed.

Lemma plus_loop_Some a s caps k x :
  Re.plus_loop a s caps k = Some x ->
  exists ws rest, s = ws ++ rest /\ ws <> [] /\
    forallb (Re.atom_matches a) ws = true /\ k rest caps = Some x.
Proof.
  revert x. induction s as [|c s IH]; intros x H; [discriminate|].
  cbn [Re.plus_loop] in H.
  destruct (Re.atom_matches a c) eqn:Hc; [|discriminate].
  destruct (Re.plus_loop a s caps k) eqn:E.
  - destruct (IH _ eq_refl) as (ws & rest & -> & _ & Hws & Hk).
    exists (c :: ws), rest. cbn [forallb]. rewrite Hc, Hws.
    inversion H; subst. repeat split; try assumption. discriminate.
  - exists [c], s. cbn [forallb]. rewrite Hc.
    repeat split; try assumption. discriminate.
Qed.

End ReFacts.

(* ===================================================================== *)
(** * The two footer patterns                                             *)
(* ===================================================================== *)

Lemma date_shaped_inv d :
  date_shaped d = true ->
  exists y1 y2 y3 y4 m1 m2 d1 d2,
    d = [y1; y2; y3; y4; 45%N; m1; m2; 45%N; d1; d2] /\
    forallb is_decimal [y1; y2; y3; y4; m1; m2; d1; d2] = true.
Proof.
  unfold date_shaped.
  do 11 (destruct d as [|? d]; try discriminate).
  rewrite !andb_true_iff. intros [[H H1] H2].
  apply N.eqb_eq in H1, H2. subst.
  do 8 eexists. split; [reflexivity | exact H].
Qed.

Lemma date_shaped_head d rest c rest' :
  date_shaped d = true -> d ++ rest = c :: rest' -> is_space c = false.
Proof.
  intros Hd E. apply date_shaped_inv in Hd as (y1 & ? & ? & ? & ? & ? & ? & ? & -> & H).
  cbn [app] in E. injection E as <- _. cbn [forallb] in H. apply andb_true_iff in H as [H _].
  destruct (is_space y1) eqn:Hs; [|reflexivity].
  apply space_not_decimal in Hs. congruence.
Qed.

Lemma take_length_app_sub {A} (w rest : list A) :
  take (length (w ++ rest) - length rest) (w ++ rest) = w.
Proof.
  rewrite length_app. replace (length w + length rest - length rest)%nat
    with (length w) by lia.
  apply take_app_length.
Qed.

Section DateGroup.

Context {R : Type}.
Implicit Types (k : Re.cont R).

Lemma rmatch_date_group d rest caps k :
  date_shaped d = true ->
  Re.rmatch date_group (d ++ rest) caps k = k rest (caps ++ [d]).
Proof.
  intros Hd.
  pose proof (take_length_app_sub d rest) as Htake.
  apply date_shaped_inv in Hd as (y1 & y2 & y3 & y4 & m1 & m2 & d1 & d2 & -> & H).
  cbn [forallb] in H. rewrite !andb_true_iff in H.
  destruct H as (H1 & H2 & H3 & H4 & H5 & H6 & H7 & H8 & _).
  unfold date_group.
  cbn [Re.seqs Re.rmatch Re.atom_matches app].
  rewrite H1, H2, H3, H4, H5, H6, H7, H8. cbn [N.eqb Pos.eqb].
  cbn [app] in Htake. rewrite Htake. reflexivity.
Qed.

Lemma rmatch_date_group_Some s caps k x :
  Re.rmatch date_group s caps k = Some x ->
  exists d rest, s = d ++ rest /\ date_shaped d = true /\
    k rest (caps ++ [d]) = Some x.
Proof.
  unfold date_group. cbn [Re.seqs Re.rmatch Re.atom_matches].
  intros H.
  do 10 (destruct s as [|? s]; [discriminate H|];
         match type of H with
         | (if ?b then _ else _) = Some _ => destruct b eqn:?; [|discriminate H]
         end).
  repeat match goal with
  | E : N.eqb _ _ = true |- _ => apply N.eqb_eq in E; subst
  end.
  match type of H with
  | context [take ?a ?l] =>
    match l with
    | ?a1 :: ?a2 :: ?a3 :: ?a4 :: ?a5 :: ?a6 :: ?a7 :: ?a8 :: ?a9 :: ?a10 :: ?r =>
      pose proof (take_length_app_sub
        [a1; a2; a3; a4; a5; a6; a7; a8; a9; a10] r) as Htake
    end
  end.
  cbn [app] in Htake. rewrite Htake in H.
  match type of H with context [caps ++ [?d]] => exists d, s end.
  split; [reflexivity|]. split; [|exact H].
  cbn [date_shaped forallb N.eqb Pos.eqb].
  repeat match goal with E : is_decimal _ = true |- _ => rewrite E; clear E end.
  reflexivity.
Qed.

Lemma rmatch_date_group_space c s caps k :
  is_space c = true -> Re.rmatch date_group (c :: s) caps k = None.
Proof.
  intros Hc. apply space_not_decimal in Hc.
  unfold date_group. cbn [Re.seqs Re.rmatch Re.atom_matches].
  rewrite Hc. reflexivity.
Qed.

End DateGroup.

Lemma EVENT_PATTERN_unfold :
  EVENT_POST_FOOTER_PATTERN =
  Re.Seq (Re.lit (str "#" ++ EVENT))
    (Re.Seq (Re.Plus Re.Space) (Re.Seq date_group Re.Empty)).
Proof. reflexivity. Qed.

(** The event pattern matches at the start of a text exactly when the
    text starts with the event tag, white space and a date-shaped string,
    and captures that string. *)
Lemma match_here_event ws d rest :
  ws <> [] -> forallb is_space ws = true -> date_shaped d = true ->
  Re.match_here EVENT_POST_FOOTER_PATTERN
    ((str "#" ++ EVENT) ++ ws ++ d ++ rest) = Some [d].
Proof.
  intros Hne Hws Hd. unfold Re.match_here. rewrite EVENT_PATTERN_unfold.
  cbn [Re.rmatch]. rewrite rmatch_lit_app.
  rewrite plus_loop_spaces; try assumption.
  - rewrite rmatch_date_group by assumption. reflexivity.
  - intros c s caps Hc. apply rmatch_date_group_space, Hc.
  - reflexivity.
  - intros c rest'. apply date_shaped_head, Hd.
Qed.

Lemma match_here_event_Some s caps :
  Re.match_here EVENT_POST_FOOTER_PATTERN s = Some caps ->
  exists ws d rest,
    s = (str "#" ++ EVENT) ++ ws ++ d ++ rest /\
    ws <> [] /\ forallb is_space ws = true /\ date_shaped d = true /\
    caps = [d].
Proof.
  unfold Re.match_here. rewrite EVENT_PATTERN_unfold. cbn [Re.rmatch].
  intros H.
  apply rmatch_lit_Some in H as (s1 & -> & H).
  apply plus_loop_Some in H as (ws & s2 & -> & Hne & Hws & H).
  apply rmatch_date_group_Some in H as (d & rest & -> & Hd & H).
  injection H as <-.
  exists ws, d, rest. repeat split; assumption.
Qed.

Lemma NAV_PATTERN_unfold :
  NAV_POST_FOOTER_PATTERN =
  Re.Seq (Re.lit (str "#")) (Re.Seq (Re.Group nav_alts) Re.Empty).
Proof. reflexivity. Qed.

Lemma elem_of_NAV_TYPES ty :
  ty ∈ NAV_TYPES <->
  ty = CHATS \/ ty = CONTACTS \/ ty = EVENTS_ARCHIVE \/
  ty = LECTURES_ARCHIVE \/ ty = WHOIS_HOWTO.
Proof.
  unfold NAV_TYPES. rewrite !elem_of_cons, elem_of_nil. tauto.
Qed.

Section NavAlts.

Context {R : Type}.
Implicit Types (k : Re.cont R).

(** Two category names never start the same text. *)
Local Ltac other_names :=
  repeat (rewrite rmatch_lit_None
            by (let E := fresh in intros ? E; cbv in E; discriminate E)).

Lemma rmatch_nav_alts ty rest caps k :
  ty ∈ NAV_TYPES ->
  Re.rmatch nav_alts (ty ++ rest) caps k = k rest caps.
Proof.
  rewrite elem_of_NAV_TYPES. unfold nav_alts. cbn [Re.alts Re.rmatch].
  intros [-> | [-> | [-> | [-> | ->]]]];
    other_names; rewrite rmatch_lit_app; other_names;
    destruct (k rest caps); reflexivity.
Qed.

Lemma rmatch_nav_alts_Some s caps k x :
  Re.rmatch nav_alts s caps k = Some x ->
  exists ty rest, ty ∈ NAV_TYPES /\ s = ty ++ rest /\ k rest caps = Some x.
Proof.
  unfold nav_alts. cbn [Re.alts Re.rmatch]. intros H.
  repeat match type of H with
  | match ?m with Some _ => _ | None => _ end = Some _ =>
    destruct m eqn:?
  end.
  all: match goal with
       | E : Re.rmatch (Re.lit ?w) _ _ _ = Some _ |- _ =>
         apply rmatch_lit_Some in E as (rest & -> & Hk); exists w, rest
       | _ =>
         apply rmatch_lit_Some in H as (rest & -> & Hk);
         exists WHOIS_HOWTO, rest
       end.
  all: split; [apply elem_of_NAV_TYPES; tauto | split; [reflexivity|congruence]].
Qed.

End NavAlts.

(** The navigation pattern matches at the start of a text exactly when
    the text starts with [#] and a category name, and captures that
    name. *)
Lemma match_here_nav ty rest :
  ty ∈ NAV_TYPES ->
  Re.match_here NAV_POST_FOOTER_PATTERN (str "#" ++ ty ++ rest) = Some [ty].
Proof.
  intros Hty. unfold Re.match_here. rewrite NAV_PATTERN_unfold.
  cbn [Re.rmatch]. rewrite rmatch_lit_app, rmatch_nav_alts by assumption.
  rewrite take_length_app_sub. reflexivity.
Qed.

Lemma match_here_nav_Some s caps :
  Re.match_here NAV_POST_FOOTER_PATTERN s = Some caps ->
  exists ty rest,
    ty ∈ NAV_TYPES /\ s = str "#" ++ ty ++ rest /\ caps = [ty].
Proof.
  unfold Re.match_here. rewrite NAV_PATTERN_unfold. cbn [Re.rmatch].
  intros H.
  apply rmatch_lit_Some in H as (s1 & -> & H).
  apply rmatch_nav_alts_Some in H as (ty & rest & Hty & -> & H).
  rewrite take_length_app_sub in H. injection H as <-.
  exists ty, rest. repeat split; assumption.
Qed.

(* ===================================================================== *)
(** * Leftmost search                                                     *)
(* ===================================================================== *)

Section Search.

Variable r : Re.regex.

Lemma search_None s :
  Re.search r s = None <->
  forall i, (i <= length s)%nat -> Re.match_here r (drop i s) = None.
Proof.
  induction s as [|c s IH]; cbn [Re.search].
  - destruct (Re.match_here r []) eqn:E.
    + split; [discriminate|]. intros H. specialize (H 0%nat (le_n _)).
      cbn in H. congruence.
    + split; [|reflexivity]. intros _ i _. rewrite drop_nil. exact E.
  - destruct (Re.match_here r (c :: s)) eqn:E.
    + split; [discriminate|]. intros H.
      specialize (H 0%nat (Nat.le_0_l _)). cbn in H. congruence.
    + rewrite IH. split.
      * intros H [|i] Hi; [exact E|]. cbn [drop]. apply H.
        cbn [length] in Hi. lia.
      * intros H i Hi. apply (H (Datatypes.S i)). cbn [length]. lia.
Qed.

Lemma search_Some s caps :
  Re.search r s = Some caps <->
  exists i, (i <= length s)%nat /\
    Re.match_here r (drop i s) = Some caps /\
    forall j, (j < i)%nat -> Re.match_here r (drop j s) = None.
Proof.
  induction s as [|c s IH]; cbn [Re.search].
  - destruct (Re.match_here r []) eqn:E.
    + split.
      * intros [= <-]. exists 0%nat. cbn. repeat split; try assumption; lia.
      * intros (i & _ & H & _). rewrite drop_nil in H. congruence.
    + split; [discriminate|].
      intros (i & _ & H & _). rewrite drop_nil in H. congruence.
  - destruct (Re.match_here r (c :: s)) eqn:E.
    + split.
      * intros [= <-]. exists 0%nat. cbn [drop].
        repeat split; try assumption; lia.
      * intros ([|i] & _ & H & Hlt).
        -- cbn [drop] in H. congruence.
        -- specialize (Hlt 0%nat (Nat.lt_0_succ _)). cbn [drop] in Hlt.
           congruence.
    + rewrite IH. split.
      * intros (i & Hi & H & Hlt). exists (Datatypes.S i). cbn [drop length].
        repeat split; try assumption; try lia.
        intros [|j] Hj; [exact E|]. cbn [drop]. apply Hlt. lia.
      * intros ([|i] & Hi & H & Hlt).
        -- cbn [drop] in H. congruence.
        -- exists i. cbn [drop length] in *. repeat split; try assumption; try lia.
           intros j Hj. apply (Hlt (Datatypes.S j)). lia.
Qed.

End Search.

(** The tags of the statements are the matches of the two patterns. *)
Lemma event_tag_at_match text i d :
  event_tag_at text i d <->
  (i <= length text)%nat /\
  Re.match_here EVENT_POST_FOOTER_PATTERN (drop i text) = Some [d].
Proof.
  unfold event_tag_at. split.
  - intros (Hi & ws & rest & -> & Hne & Hws & Hd). split; [exact Hi|].
    apply match_here_event; assumption.
  - intros (Hi & H). split; [exact Hi|].
    apply match_here_event_Some in H as (ws & d' & rest & E & Hne & Hws & Hd & [= <-]).
    exists ws, rest. repeat split; assumption.
Qed.

Lemma nav_tag_at_match text i ty :
  nav_tag_at text i ty <->
  (i <= length text)%nat /\
  Re.match_here NAV_POST_FOOTER_PATTERN (drop i text) = Some [ty].
Proof.
  unfold nav_tag_at. split.
  - intros (Hi & Hty & rest & ->). split; [exact Hi|].
    apply match_here_nav; assumption.
  - intros (Hi & H). split; [exact Hi|].
    apply match_here_nav_Some in H as (ty' & rest & Hty & E & [= <-]).
    split; [exact Hty|]. exists rest. exact E.
Qed.

(* ===================================================================== *)
(** * [parse_post_footer]                                                 *)
(* ===================================================================== *)

Lemma search_event_Some text caps :
  Re.search EVENT_POST_FOOTER_PATTERN text = Some caps <->
  exists i d, caps = [d] /\ event_tag_at text i d /\ no_event_tag_before text i.
Proof.
  rewrite search_Some. split.
  - intros (i & Hi & H & Hlt).
    destruct (match_here_event_Some _ _ H) as (_ & d & _ & _ & _ & _ & _ & ->).
    exists i, d. split; [reflexivity|]. split.
    + apply event_tag_at_match. auto.
    + intros j d' Hj Hat. apply event_tag_at_match in Hat as [_ Hat].
      rewrite (Hlt j Hj) in Hat. discriminate.
  - intros (i & d & -> & Hat & Hbefore).
    pose proof Hat as [Hi _]. apply event_tag_at_match in Hat as [_ Hat].
    exists i. repeat split; try assumption.
    intros j Hj.
    destruct (Re.match_here EVENT_POST_FOOTER_PATTERN (drop j text)) eqn:E;
      [|reflexivity].
    exfalso.
    destruct (match_here_event_Some _ _ E) as (_ & d' & _ & _ & _ & _ & _ & ->).
    apply (Hbefore j d' Hj). apply event_tag_at_match. split; [lia | exact E].
Qed.

Lemma search_event_None text :
  Re.search EVENT_POST_FOOTER_PATTERN text = None <-> no_event_tag text.
Proof.
  rewrite search_None. split.
  - intros H j d Hat. apply event_tag_at_match in Hat as [Hj Hat].
    rewrite (H j Hj) in Hat. discriminate.
  - intros H j Hj.
    destruct (Re.match_here EVENT_POST_FOOTER_PATTERN (drop j text)) eqn:E;
      [|reflexivity].
    exfalso.
    destruct (match_here_event_Some _ _ E) as (_ & d' & _ & _ & _ & _ & _ & ->).
    apply (H j d'). apply event_tag_at_match. auto.
Qed.

Lemma search_nav_Some text caps :
  Re.search NAV_POST_FOOTER_PATTERN text = Some caps <->
  exists i ty, caps = [ty] /\ nav_tag_at text i ty /\ no_nav_tag_before text i.
Proof.
  rewrite search_Some. split.
  - intros (i & Hi & H & Hlt).
    destruct (match_here_nav_Some _ _ H) as (ty & _ & _ & _ & ->).
    exists i, ty. split; [reflexivity|]. split.
    + apply nav_tag_at_match. auto.
    + intros j ty' Hj Hat. apply nav_tag_at_match in Hat as [_ Hat].
      rewrite (Hlt j Hj) in Hat. discriminate.
  - intros (i & ty & -> & Hat & Hbefore).
    pose proof Hat as [Hi _]. apply nav_tag_at_match in Hat as [_ Hat].
    exists i. repeat split; try assumption.
    intros j Hj.
    destruct (Re.match_here NAV_POST_FOOTER_PATTERN (drop j text)) eqn:E;
      [|reflexivity].
    exfalso.
    destruct (match_here_nav_Some _ _ E) as (ty' & _ & _ & _ & ->).
    apply (Hbefore j ty' Hj). apply nav_tag_at_match. split; [lia | exact E].
Qed.

Lemma search_nav_None text :
  Re.search NAV_POST_FOOTER_PATTERN text = None <-> no_nav_tag text.
Proof.
  rewrite search_None. split.
  - intros H j ty Hat. apply nav_tag_at_match in Hat as [Hj Hat].
    rewrite (H j Hj) in Hat. discriminate.
  - intros H j Hj.
    destruct (Re.match_here NAV_POST_FOOTER_PATTERN (drop j text)) eqn:E;
      [|reflexivity].
    exfalso.
    destruct (match_here_nav_Some _ _ E) as (ty' & _ & _ & _ & ->).
    apply (H j ty'). apply nav_tag_at_match. auto.
Qed.

(** The leftmost event tag decides the parse: its date is read, and a
    failure to read it is the failure of the parse. *)
Lemma parse_event_tag text i d :
  event_tag_at text i d -> no_event_tag_before text i ->
  parse_post_footer text =
  (date ← fromisoformat d; mret (Some (PostFooter.mk EVENT (Some date)))).
Proof.
  intros Hat Hbefore. unfold parse_post_footer.
  assert (E : Re.search EVENT_POST_FOOTER_PATTERN text = Some [d])
    by (apply search_event_Some; eauto).
  rewrite E. reflexivity.
Qed.

Lemma parse_nav_tag text i ty :
  no_event_tag text -> nav_tag_at text i ty -> no_nav_tag_before text i ->
  parse_post_footer text = Ok (Some (PostFooter.mk ty None)).
Proof.
  intros Hno Hat Hbefore. unfold parse_post_footer.
  apply search_event_None in Hno. rewrite Hno.
  assert (E : Re.search NAV_POST_FOOTER_PATTERN text = Some [ty])
    by (apply search_nav_Some; eauto).
  rewrite E. reflexivity.
Qed.

Lemma parse_no_tag text :
  no_event_tag text -> no_nav_tag text -> parse_post_footer text = Ok None.
Proof.
  intros He Hn. unfold parse_post_footer.
  apply search_event_None in He. apply search_nav_None in Hn.
  rewrite He, Hn. reflexivity.
Qed.

(** What a returned footer tells about the text, and that the only
    exception of the parser is the [ValueError] of an unreadable date. *)
Lemma parse_Some_inv text footer :
  parse_post_footer text = Ok (Some footer) ->
  (exists i d date,
      event_tag_at text i d /\ no_event_tag_before text i /\
      fromisoformat d = Ok date /\
      footer = PostFooter.mk EVENT (Some date)) \/
  (no_event_tag text /\
   exists i ty,
      nav_tag_at text i ty /\ no_nav_tag_before text i /\
      footer = PostFooter.mk ty None).
Proof.
  unfold parse_post_footer.
  destruct (Re.search EVENT_POST_FOOTER_PATTERN text) as [caps|] eqn:Ee.
  - apply search_event_Some in Ee as (i & d & -> & Hat & Hbefore).
    destruct (fromisoformat d) as [date|] eqn:Ed; [|discriminate].
    intros [= <-]. left. exists i, d, date. auto.
  - apply search_event_None in Ee.
    destruct (Re.search NAV_POST_FOOTER_PATTERN text) as [caps|] eqn:En;
      [|discriminate].
    apply search_nav_Some in En as (i & ty & -> & Hat & Hbefore).
    intros [= <-]. right. split; [exact Ee|]. exists i, ty. auto.
Qed.

Lemma parse_None_inv text :
  parse_post_footer text = Ok None -> no_event_tag text /\ no_nav_tag text.
Proof.
  unfold parse_post_footer.
  destruct (Re.search EVENT_POST_FOOTER_PATTERN text) as [caps|] eqn:Ee.
  - apply search_event_Some in Ee as (i & d & -> & _).
    destruct (fromisoformat d); discriminate.
  - apply search_event_None in Ee.
    destruct (Re.search NAV_POST_FOOTER_PATTERN text) as [caps|] eqn:En.
    + apply search_nav_Some in En as (i & ty & -> & _). discriminate.
    + apply search_nav_None in En. auto.
Qed.

Lemma NAV_TYPES_not_EVENT ty : ty ∈ NAV_TYPES -> ty <> EVENT.
Proof.
  rewrite elem_of_NAV_TYPES.
  intros [-> | [-> | [-> | [-> | ->]]]]; intros E; cbv in E; discriminate E.
Qed.

(** Checks of the tag predicates on a given text, by running the
    matcher. *)
Lemma event_tag_at_check text i d :
  (i <=? length text)%nat = true ->
  Re.match_here EVENT_POST_FOOTER_PATTERN (drop i text) = Some [d] ->
  event_tag_at text i d.
Proof.
  intros Hi H. apply event_tag_at_match. split; [|exact H].
  apply Nat.leb_le, Hi.
Qed.

Lemma nav_tag_at_check text i ty :
  (i <=? length text)%nat = true ->
  Re.match_here NAV_POST_FOOTER_PATTERN (drop i text) = Some [ty] ->
  nav_tag_at text i ty.
Proof.
  intros Hi H. apply nav_tag_at_match. split; [|exact H].
  apply Nat.leb_le, Hi.
Qed.

Lemma no_event_tag_before_check text i :
  (forall j, (j < i)%nat ->
     Re.match_here EVENT_POST_FOOTER_PATTERN (drop j text) = None) ->
  no_event_tag_before text i.
Proof.
  intros H j d Hj Hat. apply event_tag_at_match in Hat as [_ Hat].
  rewrite (H j Hj) in Hat. discriminate.
Qed.

Lemma no_nav_tag_before_check text i :
  (forall j, (j < i)%nat ->
     Re.match_here NAV_POST_FOOTER_PATTERN (drop j text) = None) ->
  no_nav_tag_before text i.
Proof.
  intros H j d Hj Hat. apply nav_tag_at_match in Hat as [_ Hat].
  rewrite (H j Hj) in Hat. discriminate.
Qed.

(** A bounded quantifier over offsets, case by case. *)
Ltac each_offset :=
  let j := fresh "j" in
  let Hj := fresh "Hj" in
  intros j Hj;
  repeat (destruct j as [|j]; [vm_compute; reflexivity|]);
  exfalso; lia.

(* ===================================================================== *)
(** * The footer parser: invalid dates, precedence, navigation tags       *)
(* ===================================================================== *)

(** C1, as the code has it: when the leftmost event tag of a text carries
    a date-shaped string that [date.fromisoformat] rejects, the parser
    raises its [ValueError]: no footer is returned, and the navigation
    pattern is not tried. *)
Theorem parse_invalid_date_raises text i d :
  event_tag_at text i d -> no_event_tag_before text i ->
  fromisoformat d = Raised ValueError ->
  parse_post_footer text = Raised ValueError.
Proof.
  intros Hat Hbefore Hd.
  rewrite (parse_event_tag text i d Hat Hbefore), Hd. reflexivity.
Qed.

Lemma parse_invalid_date_raises_witness :
  parse_post_footer (str "party #event 2030-13-01 #chats") = Raised ValueError.
Proof.
  apply (parse_invalid_date_raises _ 6 (str "2030-13-01")).
  - apply event_tag_at_check; vm_compute; reflexivity.
  - apply no_event_tag_before_check. each_offset.
  - vm_compute. reflexivity.
Defined.

(** C1 fails as stated: the text below has the event tag followed by a
    date of month 13 and then a navigation tag, and the parser does not
    return the navigation footer, it raises. *)
Lemma parse_invalid_date_no_fallback :
  let text := str "#event 2030-13-01 #chats" in
  event_tag_at text 0 (str "2030-13-01") /\
  fromisoformat (str "2030-13-01") = Raised ValueError /\
  nav_tag_at text 18 CHATS /\
  parse_post_footer text = Raised ValueError /\
  parse_post_footer text <> Ok (Some (PostFooter.mk CHATS None)).
Proof.
  cbv zeta. split; [|split; [|split; [|split]]].
  - apply event_tag_at_check; vm_compute; reflexivity.
  - vm_compute. reflexivity.
  - apply nav_tag_at_check; vm_compute; reflexivity.
  - vm_compute. reflexivity.
  - vm_compute. discriminate.
Qed.

(** C6, as the code has it: when the leftmost event tag of a text carries
    a calendar-valid date, the parser returns the event footer of that
    date, also when the text has a navigation tag: the event pattern is
    tried first. *)
Theorem parse_event_before_nav text i d date j ty :
  event_tag_at text i d -> no_event_tag_before text i ->
  fromisoformat d = Ok date ->
  nav_tag_at text j ty ->
  parse_post_footer text = Ok (Some (PostFooter.mk EVENT (Some date))).
Proof.
  intros Hat Hbefore Hd _.
  rewrite (parse_event_tag text i d Hat Hbefore), Hd. reflexivity.
Qed.

Lemma parse_event_before_nav_witness :
  parse_post_footer (str "#chats and #event 2030-05-01") =
  Ok (Some (PostFooter.mk EVENT (Some (mkDate 2030 5 1)))).
Proof.
  apply (parse_event_before_nav _ 11 (str "2030-05-01") _ 0 CHATS).
  - apply event_tag_at_check; vm_compute; reflexivity.
  - apply no_event_tag_before_check. each_offset.
  - vm_compute. reflexivity.
  - apply nav_tag_at_check; vm_compute; reflexivity.
Defined.

(** C6 fails as stated: the text below has a valid event footer and a
    navigation tag, and the parser returns no event footer, since an
    earlier event tag carries a date of month 13. *)
Lemma parse_event_shadowed_by_invalid :
  let text := str "#event 2030-13-01 #event 2030-05-01 #chats" in
  event_tag_at text 18 (str "2030-05-01") /\
  fromisoformat (str "2030-05-01") = Ok (mkDate 2030 5 1) /\
  nav_tag_at text 36 CHATS /\
  parse_post_footer text = Raised ValueError /\
  parse_post_footer text
  <> Ok (Some (PostFooter.mk EVENT (Some (mkDate 2030 5 1)))).
Proof.
  cbv zeta. split; [|split; [|split; [|split]]].
  - apply event_tag_at_check; vm_compute; reflexivity.
  - vm_compute. reflexivity.
  - apply nav_tag_at_check; vm_compute; reflexivity.
  - vm_compute. reflexivity.
  - vm_compute. discriminate.
Qed.

(** C7, as the code has it: on a text without event tag, the parser
    returns the footer of a navigation category, without date, exactly
    for the category whose name follows a [#] at the leftmost place where
    one of the five names does, and returns nothing exactly when no name
    follows a [#] anywhere.  The names are compared as spelled (a name in
    another case is not one), but only as a prefix of what follows the
    [#]: whatever comes after the name, letters included, does not
    prevent the match. *)
Theorem parse_nav_footer text :
  no_event_tag text ->
  (forall ty,
     parse_post_footer text = Ok (Some (PostFooter.mk ty None)) <->
     exists i, nav_tag_at text i ty /\ no_nav_tag_before text i) /\
  (parse_post_footer text = Ok None <-> no_nav_tag text) /\
  (forall ty rest,
     ty ∈ NAV_TYPES -> text = str "#" ++ ty ++ rest ->
     parse_post_footer text = Ok (Some (PostFooter.mk ty None))).
Proof.
  intros Hno. split; [|split].
  - intros ty. split.
    + intros H. apply parse_Some_inv in H as [(i & d & date & _ & _ & _ & [=]) |
        (_ & i & ty' & Hat & Hbefore & [= <-])].
      exists i. auto.
    + intros (i & Hat & Hbefore). eapply parse_nav_tag; eassumption.
  - split.
    + intros H. apply parse_None_inv in H. tauto.
    + intros H. apply parse_no_tag; assumption.
  - intros ty rest Hty E. apply (parse_nav_tag text 0 ty Hno).
    + split; [lia|]. split; [exact Hty|]. exists rest. exact E.
    + intros j ty' Hj. lia.
Qed.

Lemma parse_nav_footer_witness :
  parse_post_footer (str "see #contacts") =
  Ok (Some (PostFooter.mk CONTACTS None)).
Proof.
  apply (parse_nav_footer (str "see #contacts")).
  - apply search_event_None. vm_compute. reflexivity.
  - exists 4%nat. split.
    + apply nav_tag_at_check; vm_compute; reflexivity.
    + apply no_nav_tag_before_check. each_offset.
Defined.

(** C7 fails as stated: [#chatsroom] is a tag whose spelling is a
    category name followed by extra letters, and it is recognized as the
    category [chats]; [#Chats], in another case, is not recognized. *)
Lemma parse_nav_prefix_recognized :
  (str "chatsroom" ∉ NAV_TYPES) /\
  parse_post_footer (str "#chatsroom") = Ok (Some (PostFooter.mk CHATS None)) /\
  parse_post_footer (str "#Chats") = Ok None.
Proof.
  split; [|split].
  - intros H. apply elem_of_NAV_TYPES in H.
    destruct H as [H | [H | [H | [H | H]]]]; cbv in H; discriminate H.
  - vm_compute. reflexivity.
  - vm_compute. reflexivity.
Qed.

(* ===================================================================== *)
(** * Serialization                                                       *)
(* ===================================================================== *)

Section MapM.

Context {A B : Type} (f : A -> outcome B).

Lemma mapM_cons x l :
  mapM f (x :: l) = obind (f x) (fun y => obind (mapM f l) (fun k => Ok (y :: k))).
Proof. reflexivity. Qed.

Lemma mapM_Ok_Forall2 l k :
  mapM f l = Ok k <-> Forall2 (fun x y => f x = Ok y) l k.
Proof.
  revert k. induction l as [|x l IH]; intros k.
  - cbn. split.
    + intros [= <-]. constructor.
    + intros H. inversion H. reflexivity.
  - rewrite mapM_cons. unfold obind. split.
    + destruct (f x) as [y|] eqn:Ex; [|discriminate].
      destruct (mapM f l) as [k'|] eqn:El; [|discriminate].
      intros [= <-]. constructor; [exact Ex|]. apply IH. reflexivity.
    + intros H. inversion H as [|? y ? k' Ex Hl]; subst.
      rewrite Ex. apply IH in Hl. rewrite Hl. reflexivity.
Qed.

Lemma mapM_Ok_exists l :
  Forall (fun x => exists y, f x = Ok y) l -> exists k, mapM f l = Ok k.
Proof.
  induction 1 as [|x l [y Ey] _ [k Ek]].
  - exists []. reflexivity.
  - exists (y :: k). apply mapM_Ok_Forall2. constructor; [exact Ey|].
    apply mapM_Ok_Forall2, Ek.
Qed.

Lemma mapM_Ok_elem_of l k x y :
  mapM f l = Ok k -> x ∈ l -> f x = Ok y -> y ∈ k.
Proof.
  rewrite mapM_Ok_Forall2. induction 1 as [|x' y' l k Ex _ IH].
  - intros H. inversion H.
  - rewrite !elem_of_cons. intros [-> | Hx] Ey.
    + left. congruence.
    + right. auto.
Qed.

Lemma mapM_Raised l e :
  mapM f l = Raised e -> exists x, x ∈ l /\ f x = Raised e.
Proof.
  induction l as [|x l IH]; [discriminate|].
  rewrite mapM_cons. unfold obind.
  destruct (f x) as [y|e'] eqn:Ex.
  - destruct (mapM f l) as [k'|e''] eqn:El; [discriminate|].
    intros [= <-]. destruct (IH eq_refl) as (x' & Hx' & E').
    exists x'. split; [right; exact Hx' | exact E'].
  - intros [= <-]. exists x. split; [left | exact Ex].
Qed.

End MapM.

Lemma key_type_ne_message_id : str "type" <> str "message_id".
Proof. intros E. cbv in E. discriminate E. Qed.

Lemma key_event_date_ne_message_id : str "event_date" <> str "message_id".
Proof. intros E. cbv in E. discriminate E. Qed.

Lemma key_event_date_ne_type : str "event_date" <> str "type".
Proof. intros E. cbv in E. discriminate E. Qed.

Lemma format_lookup_message_id post :
  dynamo_format_post post !! str "message_id"
  = Some {[ Dynamo.N := str_of_int (message_id post) ]}.
Proof.
  unfold dynamo_format_post. destruct (event_date post).
  - rewrite lookup_insert_ne by apply key_event_date_ne_message_id.
    rewrite lookup_insert_ne by apply key_type_ne_message_id.
    apply lookup_singleton_eq.
  - rewrite lookup_insert_ne by apply key_type_ne_message_id.
    apply lookup_singleton_eq.
Qed.

Lemma format_lookup_type post :
  dynamo_format_post post !! str "type" = Some {[ Dynamo.S := type post ]}.
Proof.
  unfold dynamo_format_post. destruct (event_date post).
  - rewrite lookup_insert_ne by apply key_event_date_ne_type.
    apply lookup_insert_eq.
  - apply lookup_insert_eq.
Qed.

Lemma format_lookup_event_date post :
  dynamo_format_post post !! str "event_date"
  = (fun d => {[ Dynamo.S := isoformat d ]}) <$> event_date post.
Proof.
  unfold dynamo_format_post. destruct (event_date post); cbn [fmap option_fmap option_map].
  - apply lookup_insert_eq.
  - rewrite lookup_insert_ne
      by (intros E; symmetry in E; exact (key_event_date_ne_type E)).
    rewrite lookup_singleton_ne
      by (intros E; symmetry in E; exact (key_event_date_ne_message_id E)).
    reflexivity.
Qed.

(** The key attribute of a formatted post is its [message_id]. *)
Lemma item_key_format post :
  item_key (dynamo_format_post post) = Ok (message_id post).
Proof.
  unfold item_key, getitem, MESSAGE_ID_KEY.
  rewrite format_lookup_message_id.
  unfold mbind, outcome_bind, obind.
  rewrite lookup_singleton_eq. apply int_of_str_of_int.
Qed.

(** A post whose date, if any, is a valid date is read back from its
    item. *)
Lemma dynamo_parse_format post :
  (forall d, event_date post = Some d -> date_valid d = true) ->
  dynamo_parse_post (dynamo_format_post post) = Ok post.
Proof.
  intros Hv. unfold dynamo_parse_post, getitem.
  rewrite format_lookup_message_id, format_lookup_type,
    format_lookup_event_date.
  unfold mbind, outcome_bind, mret, outcome_ret, obind.
  rewrite !lookup_singleton_eq, int_of_str_of_int.
  destruct post as [mid ty [d|]];
    cbn [event_date type message_id fmap option_fmap option_map] in *.
  - rewrite lookup_singleton_eq.
    rewrite fromisoformat_isoformat by (apply Hv; reflexivity). reflexivity.
  - reflexivity.
Qed.

(** C5: a post is read back from the item it is formatted to, with its
    [message_id], its [type] (any string, so each of the six categories)
    and its optional [event_date]; a [date], if present, is one Python
    can build (valid). *)
Theorem dynamo_roundtrip post :
  (forall d, event_date post = Some d -> date_valid d = true) ->
  dynamo_parse_post (dynamo_format_post post) = Ok post /\
  (forall post', dynamo_parse_post (dynamo_format_post post) = Ok post' ->
     message_id post' = message_id post /\ type post' = type post /\
     event_date post' = event_date post).
Proof.
  intros Hv. pose proof (dynamo_parse_format post Hv) as H.
  split; [exact H|]. intros post' H'. rewrite H in H'. injection H' as <-. auto.
Qed.

Lemma dynamo_roundtrip_witness :
  dynamo_parse_post
    (dynamo_format_post (mkPost 42 EVENT (Some (mkDate 2030 5 1))))
  = Ok (mkPost 42 EVENT (Some (mkDate 2030 5 1))).
Proof.
  apply (dynamo_roundtrip (mkPost 42 EVENT (Some (mkDate 2030 5 1)))).
  intros d [= <-]. reflexivity.
Defined.

(* ===================================================================== *)
(** * The synchronizer                                                    *)
(* ===================================================================== *)

Lemma put_post_run post w :
  put_post post w =
  (Ok (), mkWorld (<[message_id post := dynamo_format_post post]> (posts_table w))
            (outbox w)).
Proof.
  unfold put_post, dynamo_put. rewrite item_key_format. reflexivity.
Qed.

Lemma new_message_run message w :
  handle_chat_new_message message w =
  match parse_message_footer message with
  | Ok (Some footer) =>
    (Ok (), mkWorld
              (<[Message.message_id message :=
                   dynamo_format_post (footer_post message footer)]>
                 (posts_table w))
              (outbox w))
  | Ok None => (Ok (), w)
  | Raised e => (Raised e, w)
  end.
Proof.
  unfold handle_chat_new_message, mbind, M_bind, lift, new_post.
  destruct (parse_message_footer message) as [[footer|]|e]; try reflexivity.
  apply put_post_run.
Qed.

Lemma edited_message_run message w :
  handle_chat_edited_message message w =
  match parse_message_footer message with
  | Ok (Some footer) =>
    (Ok (), mkWorld
              (<[Message.message_id message :=
                   dynamo_format_post (footer_post message footer)]>
                 (posts_table w))
              (outbox w))
  | Ok None =>
    match mapM dynamo_parse_post (dynamo_scan (posts_table w)) with
    | Ok posts =>
      match find_post posts (Some (Message.message_id message)) None with
      | Some post =>
        (Ok (), mkWorld (delete (message_id post) (posts_table w)) (outbox w))
      | None => (Ok (), w)
      end
    | Raised e => (Raised e, w)
    end
  | Raised e => (Raised e, w)
  end.
Proof.
  unfold handle_chat_edited_message, mbind, M_bind, lift, new_post, read_posts.
  destruct (parse_message_footer message) as [[footer|]|e]; try reflexivity.
  - apply put_post_run.
  - destruct (mapM dynamo_parse_post _) as [posts|e]; [|reflexivity].
    destruct (find_post posts _ _); reflexivity.
Qed.

(** [find_post(posts, message_id=m)] returns a post of that id, and
    nothing when [m] is 0. *)
Lemma find_post_by_id_Some posts m post :
  find_post posts (Some m) None = Some post ->
  message_id post = m /\ post ∈ posts /\ m <> 0.
Proof.
  unfold find_post, find_posts. intros H.
  apply head_Some_elem_of in H. apply list_elem_of_In in H.
  apply filter_In in H as [Hin Ht]. apply list_elem_of_In in Hin.
  unfold find_posts_test, truthy_int, truthy_str in Ht.
  destruct m; try discriminate;
    match type of Ht with
    | (if ?b then _ else _) = true => destruct b eqn:Eb; [|discriminate]
    end;
    apply Z.eqb_eq in Eb; auto.
Qed.

Lemma find_post_by_id_found posts m post :
  post ∈ posts -> message_id post = m -> m <> 0 ->
  exists post', find_post posts (Some m) None = Some post'.
Proof.
  intros Hin Hm Hne. unfold find_post, find_posts.
  destruct (List.filter _ posts) as [|post' l] eqn:E.
  - exfalso. assert (Hf : In post (List.filter
      (find_posts_test (Some m) None) posts)).
    { apply filter_In. split; [apply list_elem_of_In, Hin|].
      unfold find_posts_test, truthy_int, truthy_str.
      destruct m; try congruence; rewrite Hm, Z.eqb_refl; reflexivity. }
    rewrite E in Hf. exact Hf.
  - exists post'. reflexivity.
Qed.

Lemma elem_of_dynamo_scan (table : Table) item :
  item ∈ dynamo_scan table <-> exists key, table !! key = Some item.
Proof.
  unfold dynamo_scan. rewrite list_elem_of_fmap. split.
  - intros ([key item'] & -> & H). apply elem_of_map_to_list in H. eauto.
  - intros (key & H). exists (key, item). split; [reflexivity|].
    apply elem_of_map_to_list, H.
Qed.

Lemma readable_scan table :
  readable table -> exists posts,
    mapM dynamo_parse_post (dynamo_scan table) = Ok posts.
Proof.
  intros Hr. apply mapM_Ok_exists. apply Forall_forall. intros item Hin.
  apply elem_of_dynamo_scan in Hin as (key & Hk). eauto.
Qed.

Lemma readable_insert table post :
  (forall d, event_date post = Some d -> date_valid d = true) ->
  readable table ->
  readable (<[message_id post := dynamo_format_post post]> table).
Proof.
  intros Hv Hr key item. rewrite lookup_insert.
  destruct (decide (message_id post = key)) as [_ | _].
  - intros [= <-]. exists post. apply dynamo_parse_format, Hv.
  - apply Hr.
Qed.

(** C4: handling the same edited message twice in a row leaves the world
    (the table, and what the bot has sent) as handling it once does,
    whatever the message and the world. *)
Theorem edited_message_idempotent message w :
  exec (handle_chat_edited_message message)
    (exec (handle_chat_edited_message message) w)
  = exec (handle_chat_edited_message message) w.
Proof.
  unfold exec. rewrite (edited_message_run message w).
  destruct (parse_message_footer message) as [[footer|]|e] eqn:Ep.
  - cbn [snd]. rewrite edited_message_run, Ep. cbn [snd posts_table outbox].
    rewrite insert_insert_eq. reflexivity.
  - destruct (mapM dynamo_parse_post (dynamo_scan (posts_table w)))
      as [posts|e] eqn:Er.
    + destruct (find_post posts _ _) as [post|] eqn:Ef.
      * apply find_post_by_id_Some in Ef as (Hm & _ & _).
        cbn [snd]. rewrite edited_message_run, Ep. cbn [posts_table outbox].
        clear Er.
        destruct (mapM dynamo_parse_post (dynamo_scan (delete _ _)))
          as [posts'|e']; [|reflexivity].
        destruct (find_post posts' _ _) as [post'|] eqn:Ef'; [|reflexivity].
        apply find_post_by_id_Some in Ef' as (Hm' & _ & _).
        cbn [snd]. rewrite Hm, Hm', delete_delete_eq. reflexivity.
      * cbn [snd]. rewrite edited_message_run, Ep, Er, Ef. reflexivity.
    + cbn [snd]. rewrite edited_message_run, Ep, Er. reflexivity.
  - cbn [snd]. rewrite edited_message_run, Ep. reflexivity.
Qed.

Lemma parse_footer_invariant text footer :
  parse_post_footer text = Ok (Some footer) ->
  footer_dated_iff_event footer /\
  PostFooter.type footer ∈ EVENT :: NAV_TYPES /\
  (forall d, PostFooter.event_date footer = Some d -> date_valid d = true).
Proof.
  intros H. unfold footer_dated_iff_event.
  apply parse_Some_inv in H as [(i & d & date & _ & _ & Hd & ->) |
    (_ & i & ty & (_ & Hty & _) & _ & ->)]; cbn [PostFooter.type PostFooter.event_date].
  - split; [|split].
    + split; [reflexivity | eauto].
    + left.
    + intros d' [= <-]. eapply fromisoformat_Ok_valid, Hd.
  - split; [|split].
    + split; [intros [? [=]] | intros E; exfalso; exact (NAV_TYPES_not_EVENT ty Hty E)].
    + right. exact Hty.
    + intros d [=].
Qed.

Lemma footer_post_invariant message footer :
  parse_message_footer message = Ok (Some footer) ->
  post_dated_iff_event (footer_post message footer) /\
  type (footer_post message footer) ∈ EVENT :: NAV_TYPES /\
  (forall d, event_date (footer_post message footer) = Some d ->
     date_valid d = true).
Proof.
  unfold parse_message_footer.
  destruct (Message.text message) as [text|]; [|discriminate].
  intros H. exact (parse_footer_invariant text footer H).
Qed.

(** C9: a footer returned by the parser has a date exactly when its type
    is [event], and so has every post the two chat handlers write: an
    item found in the table after a handler ran either was there before,
    or is the item of a post that has a date exactly when its type is
    [event] (and whose type is one of the six categories). *)
Theorem dated_iff_event :
  (forall text footer,
     parse_post_footer text = Ok (Some footer) ->
     footer_dated_iff_event footer) /\
  (forall message w key item,
     posts_table (exec (handle_chat_new_message message) w) !! key = Some item \/
     posts_table (exec (handle_chat_edited_message message) w) !! key = Some item ->
     posts_table w !! key = Some item \/
     exists post,
       key = message_id post /\ item = dynamo_format_post post /\
       dynamo_parse_post item = Ok post /\
       post_dated_iff_event post /\ type post ∈ EVENT :: NAV_TYPES).
Proof.
  split.
  - intros text footer H. apply (parse_footer_invariant text footer H).
  - assert (Hput : forall message footer (w : World) key item,
      parse_message_footer message = Ok (Some footer) ->
      <[Message.message_id message :=
          dynamo_format_post (footer_post message footer)]> (posts_table w)
        !! key = Some item ->
      posts_table w !! key = Some item \/
      exists post,
        key = message_id post /\ item = dynamo_format_post post /\
        dynamo_parse_post item = Ok post /\
        post_dated_iff_event post /\ type post ∈ EVENT :: NAV_TYPES).
    { intros message footer w key item Ep. rewrite lookup_insert.
      destruct (decide (Message.message_id message = key)) as [<- | _]; [|auto].
      intros [= <-]. right. exists (footer_post message footer).
      destruct (footer_post_invariant message footer Ep) as (Hi & Hty & Hv).
      repeat split; try assumption; try apply Hi.
      apply dynamo_parse_format, Hv. }
    intros message w key item. unfold exec.
    rewrite new_message_run, edited_message_run.
    destruct (parse_message_footer message) as [[footer|]|e] eqn:Ep;
      cbn [snd posts_table].
    + intros [H | H]; eapply Hput; eassumption.
    + intros [H | H]; [auto|].
      destruct (mapM dynamo_parse_post _) as [posts|e]; [|auto].
      destruct (find_post posts _ _); cbn [snd posts_table] in H; [|auto].
      apply lookup_delete_Some in H as [_ H]. auto.
    + intros [H | H]; auto.
Qed.

Lemma dated_iff_event_witness :
  footer_dated_iff_event (PostFooter.mk EVENT (Some (mkDate 2030 5 1))) /\
  footer_dated_iff_event (PostFooter.mk CONTACTS None).
Proof.
  split.
  - apply (proj1 dated_iff_event (str "party #event 2030-05-01")).
    vm_compute. reflexivity.
  - apply (proj1 dated_iff_event (str "see #contacts")).
    vm_compute. reflexivity.
Defined.

Lemma readable_delete table key : readable table -> readable (delete key table).
Proof.
  intros Hr key' item H. apply lookup_delete_Some in H as [_ H].
  exact (Hr key' item H).
Qed.

(** A stored post of a readable table is among the posts [read_posts]
    returns. *)
Lemma read_posts_stored w post :
  readable (posts_table w) -> stored w post ->
  (forall d, event_date post = Some d -> date_valid d = true) ->
  exists posts, read_posts w = (Ok posts, w) /\ post ∈ posts.
Proof.
  intros Hr Hs Hv. destruct (readable_scan _ Hr) as (posts & E).
  exists posts. unfold read_posts. rewrite E. split; [reflexivity|].
  apply (mapM_Ok_elem_of _ _ _ (dynamo_format_post post) _ E).
  - apply elem_of_dynamo_scan. exists (message_id post). exact Hs.
  - apply dynamo_parse_format, Hv.
Qed.

(** C2: the scenario of message 42.  From a table whose items can all be
    read: the message created with a text whose leftmost event tag is
    [#event 2030-05-01] leaves the post (42, event, 2030-05-01) stored,
    and [read_posts] returns it; the message then edited to a text
    without tags leaves no item under 42; the message then edited to a
    text without event tag whose leftmost navigation tag is [#contacts]
    leaves the post (42, contacts, None) stored, and [read_posts] returns
    it. *)
Theorem synchronizer_scenario w chat text1 text2 text3 i j :
  readable (posts_table w) ->
  event_tag_at text1 i (str "2030-05-01") -> no_event_tag_before text1 i ->
  no_event_tag text2 -> no_nav_tag text2 ->
  no_event_tag text3 ->
  nav_tag_at text3 j CONTACTS -> no_nav_tag_before text3 j ->
  let message text := Message.mk 42 chat (Some text) in
  let w1 := exec (handle_chat_new_message (message text1)) w in
  let w2 := exec (handle_chat_edited_message (message text2)) w1 in
  let w3 := exec (handle_chat_edited_message (message text3)) w2 in
  let event_post := mkPost 42 EVENT (Some (mkDate 2030 5 1)) in
  let contacts_post := mkPost 42 CONTACTS None in
  (stored w1 event_post /\
   exists posts, read_posts w1 = (Ok posts, w1) /\ event_post ∈ posts) /\
  posts_table w2 !! 42 = None /\
  (stored w3 contacts_post /\
   exists posts, read_posts w3 = (Ok posts, w3) /\ contacts_post ∈ posts).
Proof.
  intros Hr Hat1 Hb1 He2 Hn2 He3 Hat3 Hb3 message w1 w2 w3 post1 post3.
  assert (Hv1 : forall d, event_date post1 = Some d -> date_valid d = true)
    by (intros d [= <-]; reflexivity).
  assert (Hv3 : forall d, event_date post3 = Some d -> date_valid d = true)
    by (intros d [=]).
  assert (Ep1 : parse_message_footer (message text1)
                = Ok (Some (PostFooter.mk EVENT (Some (mkDate 2030 5 1))))).
  { cbn. rewrite (parse_event_tag text1 i _ Hat1 Hb1). reflexivity. }
  assert (Ep2 : parse_message_footer (message text2) = Ok None).
  { cbn. apply parse_no_tag; assumption. }
  assert (Ep3 : parse_message_footer (message text3)
                = Ok (Some (PostFooter.mk CONTACTS None))).
  { cbn. eapply parse_nav_tag; eassumption. }
  assert (E1 : posts_table w1
               = <[42 := dynamo_format_post post1]> (posts_table w)).
  { unfold w1, exec. rewrite new_message_run, Ep1. reflexivity. }
  assert (Hr1 : readable (posts_table w1)).
  { rewrite E1. apply (readable_insert _ post1); assumption. }
  assert (Hs1 : stored w1 post1).
  { unfold stored. rewrite E1. apply lookup_insert_eq. }
  destruct (read_posts_stored w1 post1 Hr1 Hs1 Hv1) as (posts1 & Eposts1 & Hin1).
  assert (E2 : posts_table w2 = delete 42 (posts_table w1)).
  { unfold w2, exec. rewrite edited_message_run, Ep2.
    unfold read_posts in Eposts1. injection Eposts1 as Eposts1.
    rewrite Eposts1.
    destruct (find_post_by_id_found posts1 42 post1 Hin1 eq_refl ltac:(lia))
      as (post' & Ef).
    cbn [Message.message_id message]. rewrite Ef.
    apply find_post_by_id_Some in Ef as (-> & _ & _). reflexivity. }
  assert (E3 : posts_table w3
               = <[42 := dynamo_format_post post3]> (posts_table w2)).
  { unfold w3, exec. rewrite edited_message_run, Ep3. reflexivity. }
  assert (Hr3 : readable (posts_table w3)).
  { rewrite E3. apply (readable_insert _ post3); [assumption|].
    rewrite E2. apply readable_delete, Hr1. }
  assert (Hs3 : stored w3 post3).
  { unfold stored. rewrite E3. apply lookup_insert_eq. }
  split; [|split].
  - split; [exact Hs1|]. exists posts1. auto.
  - rewrite E2. apply lookup_delete_eq.
  - split; [exact Hs3|]. apply read_posts_stored; assumption.
Qed.

Lemma synchronizer_scenario_witness :
  let message text := Message.mk 42 7 (Some text) in
  let w1 := exec (handle_chat_new_message
                    (message (str "party #event 2030-05-01")))
              (mkWorld ∅ []) in
  let w2 := exec (handle_chat_edited_message (message (str "party"))) w1 in
  let w3 := exec (handle_chat_edited_message
                    (message (str "party, see #contacts"))) w2 in
  (stored w1 (mkPost 42 EVENT (Some (mkDate 2030 5 1))) /\
   exists posts,
     read_posts w1 = (Ok posts, w1) /\
     mkPost 42 EVENT (Some (mkDate 2030 5 1)) ∈ posts) /\
  posts_table w2 !! 42 = None /\
  (stored w3 (mkPost 42 CONTACTS None) /\
   exists posts,
     read_posts w3 = (Ok posts, w3) /\ mkPost 42 CONTACTS None ∈ posts).
Proof.
  apply (synchronizer_scenario (mkWorld ∅ []) 7
           (str "party #event 2030-05-01") (str "party")
           (str "party, see #contacts") 6 11).
  - intros key item H. cbn [posts_table] in H. rewrite lookup_empty in H.
    discriminate H.
  - apply event_tag_at_check; vm_compute; reflexivity.
  - apply no_event_tag_before_check. each_offset.
  - apply search_event_None. vm_compute. reflexivity.
  - apply search_nav_None. vm_compute. reflexivity.
  - apply search_event_None. vm_compute. reflexivity.
  - apply nav_tag_at_check; vm_compute; reflexivity.
  - apply no_nav_tag_before_check. each_offset.
Defined.

(* ===================================================================== *)
(** * The selector of future events                                       *)
(* ===================================================================== *)

Lemma date_ge_spec a b :
  date_ge a b = true <->
  year b < year a \/
  (year b = year a /\
   (month b < month a \/ (month b = month a /\ day b <= day a))).
Proof.
  unfold date_ge.
  rewrite !orb_true_iff, !andb_true_iff, !orb_true_iff, !andb_true_iff,
    !Z.ltb_lt, !Z.eqb_eq, Z.leb_le.
  reflexivity.
Qed.

Lemma date_ge_false_le a b : date_ge a b = false -> date_ge b a = true.
Proof.
  intros H. apply date_ge_spec.
  assert (Hn : ~ (date_ge a b = true)) by congruence.
  rewrite date_ge_spec in Hn. lia.
Qed.

Lemma date_lt_neq a b : date_lt a b = true -> a <> b.
Proof.
  unfold date_lt. intros H ->. apply negb_true_iff in H.
  assert (Hn : ~ (date_ge b b = true)) by congruence.
  rewrite date_ge_spec in Hn. lia.
Qed.

Lemma insert_by_key_perm x l : insert_by_key x l ≡ₚ x :: l.
Proof.
  induction l as [|y l IH]; cbn [insert_by_key]; [reflexivity|].
  destruct (date_lt (fst y) (fst x)); [|reflexivity].
  rewrite IH. apply Permutation_swap.
Qed.

Lemma sort_by_key_perm l : sort_by_key l ≡ₚ l.
Proof.
  induction l as [|x l IH]; cbn [sort_by_key]; [reflexivity|].
  rewrite insert_by_key_perm, IH. reflexivity.
Qed.

Lemma insert_by_key_sorted x l :
  Sorted key_le l -> Sorted key_le (insert_by_key x l).
Proof.
  induction 1 as [|y l Hs IH Hhd]; cbn [insert_by_key].
  - repeat constructor.
  - destruct (date_lt (fst y) (fst x)) eqn:E.
    + constructor; [exact IH|].
      assert (Hyx : key_le y x).
      { unfold key_le, date_le. unfold date_lt in E.
        apply negb_true_iff in E. apply date_ge_false_le, E. }
      destruct Hhd as [|z l Hyz]; cbn [insert_by_key].
      * constructor. exact Hyx.
      * destruct (date_lt (fst z) (fst x)); constructor; assumption.
    + constructor; [constructor; assumption|]. constructor.
      unfold key_le, date_le. unfold date_lt in E.
      apply negb_false_iff in E. exact E.
Qed.

Lemma sort_by_key_sorted l : Sorted key_le (sort_by_key l).
Proof.
  induction l as [|x l IH]; cbn [sort_by_key]; [constructor|].
  apply insert_by_key_sorted, IH.
Qed.

(** The sort is stable: the elements of one key keep their order. *)
Lemma insert_by_key_stable d x l :
  List.filter (fun y => bool_decide (fst y = d)) (insert_by_key x l)
  = List.filter (fun y => bool_decide (fst y = d)) (x :: l).
Proof.
  induction l as [|y l IH]; cbn [insert_by_key]; [reflexivity|].
  destruct (date_lt (fst y) (fst x)) eqn:E; [|reflexivity].
  apply date_lt_neq in E.
  cbn [List.filter] in *. rewrite IH.
  destruct (bool_decide_reflect (fst y = d)) as [Hy|Hy];
    destruct (bool_decide_reflect (fst x = d)) as [Hx|Hx];
    try reflexivity.
  congruence.
Qed.

Lemma sort_by_key_stable d l :
  List.filter (fun y => bool_decide (fst y = d)) (sort_by_key l)
  = List.filter (fun y => bool_decide (fst y = d)) l.
Proof.
  induction l as [|x l IH]; cbn [sort_by_key]; [reflexivity|].
  rewrite insert_by_key_stable. cbn [List.filter]. rewrite IH. reflexivity.
Qed.

Lemma filter_future_Ok today posts :
  Forall (fun post => is_Some (event_date post)) posts ->
  filter_future today posts = Ok (List.filter (on_or_after today) posts).
Proof.
  induction 1 as [|post posts [d Hd] _ IH]; [reflexivity|].
  cbn [filter_future List.filter]. unfold on_or_after at 1. rewrite Hd, IH.
  cbn. destruct (date_ge d today); reflexivity.
Qed.

Lemma filter_future_Raised today posts :
  Exists (fun post => event_date post = None) posts ->
  filter_future today posts = Raised TypeError.
Proof.
  induction 1 as [post posts Hd | post posts _ IH]; cbn [filter_future].
  - rewrite Hd. reflexivity.
  - destruct (event_date post); [|reflexivity]. rewrite IH. reflexivity.
Qed.

Lemma decorate_Ok posts :
  Forall (fun post => is_Some (event_date post)) posts ->
  exists keyed,
    mapM event_date_key posts = Ok keyed /\ keyed.*2 = posts /\
    Forall (fun y => event_date y.2 = Some y.1) keyed.
Proof.
  induction 1 as [|post posts [d Hd] _ (keyed & Ek & E2 & Hk)].
  - exists []. repeat split; constructor.
  - exists ((d, post) :: keyed). rewrite mapM_cons, Ek.
    unfold event_date_key. rewrite Hd. cbn. rewrite E2.
    repeat split. constructor; assumption.
Qed.

Lemma Sorted_keyed l :
  Forall (fun y => event_date y.2 = Some y.1) l ->
  Sorted key_le l -> Sorted event_date_le (l.*2).
Proof.
  intros Hk Hs. induction Hs as [|y l Hs IH Hhd]; [constructor|].
  apply Forall_cons in Hk as [Hy Hk]. cbn [fmap list_fmap].
  constructor; [apply IH, Hk|].
  destruct Hhd as [|z l Hyz]; constructor.
  apply Forall_cons in Hk as [Hz _].
  unfold event_date_le. rewrite Hy, Hz. exact Hyz.
Qed.

Lemma dated_keyed d l :
  Forall (fun y => event_date y.2 = Some y.1) l ->
  dated d (l.*2) = (List.filter (fun y => bool_decide (y.1 = d)) l).*2.
Proof.
  unfold dated. induction 1 as [|y l Hy _ IH]; [reflexivity|].
  cbn [fmap list_fmap List.filter]. cbn [fmap list_fmap] in IH. rewrite IH, Hy.
  destruct (bool_decide_reflect (y.1 = d)) as [-> | Hn].
  - rewrite bool_decide_eq_true_2 by reflexivity. reflexivity.
  - rewrite bool_decide_eq_false_2 by congruence. reflexivity.
Qed.

(** [posts.sort(key=...)] on dated posts: the same posts, ascending by
    date, the posts of one date in their former order. *)
Lemma sort_by_event_date_Ok posts :
  Forall (fun post => is_Some (event_date post)) posts ->
  exists sorted,
    sort_by_event_date posts = Ok sorted /\
    sorted ≡ₚ posts /\ Sorted event_date_le sorted /\
    forall d, dated d sorted = dated d posts.
Proof.
  intros Hd. destruct (decorate_Ok posts Hd) as (keyed & Ek & E2 & Hk).
  exists ((sort_by_key keyed).*2).
  assert (Hk' : Forall (fun y => event_date y.2 = Some y.1) (sort_by_key keyed))
    by (rewrite sort_by_key_perm; exact Hk).
  split; [|split; [|split]].
  - unfold sort_by_event_date. rewrite Ek. reflexivity.
  - rewrite sort_by_key_perm, E2. reflexivity.
  - apply Sorted_keyed; [exact Hk' | apply sort_by_key_sorted].
  - intros d. rewrite <- E2, !dated_keyed by assumption.
    rewrite sort_by_key_stable. reflexivity.
Qed.

Lemma Forall_filter_dated today posts :
  Forall (fun post => is_Some (event_date post)) posts ->
  Forall (fun post => is_Some (event_date post))
    (List.filter (on_or_after today) posts).
Proof.
  rewrite !Forall_forall. intros H post Hin.
  apply list_elem_of_In, filter_In in Hin as [Hin _].
  apply H, list_elem_of_In, Hin.
Qed.

Lemma select_future_Ok today posts cap :
  Forall (fun post => is_Some (event_date post)) posts ->
  exists sorted,
    select_future today posts cap = Ok (slice_to cap sorted) /\
    sorted ≡ₚ List.filter (on_or_after today) posts /\
    Sorted event_date_le sorted /\
    forall d, dated d sorted = dated d (List.filter (on_or_after today) posts).
Proof.
  intros Hd.
  destruct (sort_by_event_date_Ok _ (Forall_filter_dated today posts Hd))
    as (sorted & Es & Hp & Hs & Hst).
  exists sorted. split; [|auto].
  unfold select_future. rewrite filter_future_Ok by exact Hd.
  cbn. rewrite Es. reflexivity.
Qed.

Lemma select_future_Raised today posts cap :
  Exists (fun post => event_date post = None) posts ->
  select_future today posts cap = Raised TypeError.
Proof.
  intros H. unfold select_future. rewrite filter_future_Raised by exact H.
  reflexivity.
Qed.

Lemma find_posts_event posts :
  find_posts posts None (Some EVENT)
  = List.filter (fun post => bool_decide (type post = EVENT)) posts.
Proof. reflexivity. Qed.

Lemma filter_filter_andb {A} (f g : A -> bool) l :
  List.filter g (List.filter f l) = List.filter (fun x => f x && g x) l.
Proof.
  induction l as [|x l IH]; [reflexivity|]. cbn [List.filter].
  destruct (f x); cbn [List.filter andb]; rewrite IH; reflexivity.
Qed.

Lemma filter_id_iff {A} (f : A -> bool) l :
  List.filter f l = l <-> Forall (fun x => f x = true) l.
Proof.
  induction l as [|x l IH]; cbn [List.filter].
  - split; constructor.
  - destruct (f x) eqn:E; split.
    + intros [= El]. constructor; [exact E | apply IH, El].
    + intros H. apply Forall_cons in H as [_ H]. f_equal. apply IH, H.
    + intros El. exfalso.
      pose proof (filter_length_le f l) as Hlen. rewrite El in Hlen.
      cbn [length] in Hlen. lia.
    + intros H. apply Forall_cons in H as [H _]. congruence.
Qed.

Lemma select_future_events_filter today posts :
  List.filter (on_or_after today) (find_posts posts None (Some EVENT))
  = List.filter (is_future_event today) posts.
Proof. rewrite find_posts_event, filter_filter_andb. reflexivity. Qed.

(** C3: on a snapshot in which every post of type [event] carries its
    date, and for a cap that is not negative, the selection is the first
    [cap] entries of a list that holds exactly the posts of type [event]
    dated today or later, ascending by date (posts of one date in
    snapshot order); on the three dates of the example, with today
    2024-01-01 and cap 2, it is the posts of 2099-01-01 and 2099-06-01,
    in that order. *)
Theorem select_future_events_spec :
  (forall today posts cap,
     0 <= cap ->
     (forall post, post ∈ posts -> type post = EVENT ->
        is_Some (event_date post)) ->
     exists sorted,
       select_future_events today posts cap = Ok (take (Z.to_nat cap) sorted) /\
       sorted ≡ₚ List.filter (is_future_event today) posts /\
       Sorted event_date_le sorted /\
       (forall d,
          dated d sorted = dated d (List.filter (is_future_event today) posts)) /\
       (length (take (Z.to_nat cap) sorted) <= Z.to_nat cap)%nat) /\
  select_future_events (mkDate 2024 1 1)
    [mkPost 1 EVENT (Some (mkDate 2099 1 1));
     mkPost 2 EVENT (Some (mkDate 2000 1 1));
     mkPost 3 EVENT (Some (mkDate 2099 6 1))] 2
  = Ok [mkPost 1 EVENT (Some (mkDate 2099 1 1));
        mkPost 3 EVENT (Some (mkDate 2099 6 1))].
Proof.
  split; [|vm_compute; reflexivity].
  intros today posts cap Hcap Hinv.
  assert (Hd : Forall (fun post => is_Some (event_date post))
                 (find_posts posts None (Some EVENT))).
  { rewrite find_posts_event. apply Forall_forall. intros post Hin.
    apply list_elem_of_In, filter_In in Hin as [Hin Ht].
    apply bool_decide_eq_true in Ht. apply Hinv; [|exact Ht].
    apply list_elem_of_In, Hin. }
  destruct (select_future_Ok today _ cap Hd) as (sorted & E & Hp & Hs & Hst).
  rewrite select_future_events_filter in Hp, Hst.
  exists sorted. unfold select_future_events. rewrite E.
  unfold slice_to. destruct (Z.ltb_spec cap 0) as [?|_]; [lia|].
  repeat split; try assumption.
  rewrite length_take. lia.
Qed.

Lemma select_future_events_spec_witness :
  exists sorted,
    select_future_events (mkDate 2024 1 1)
      [mkPost 1 EVENT (Some (mkDate 2099 1 1));
       mkPost 7 CHATS None;
       mkPost 2 EVENT (Some (mkDate 2000 1 1))] 3
    = Ok (take 3 sorted) /\
    sorted ≡ₚ [mkPost 1 EVENT (Some (mkDate 2099 1 1))].
Proof.
  destruct (proj1 select_future_events_spec (mkDate 2024 1 1)
      [mkPost 1 EVENT (Some (mkDate 2099 1 1));
       mkPost 7 CHATS None;
       mkPost 2 EVENT (Some (mkDate 2000 1 1))] 3)
    as (sorted & E & Hp & _).
  - lia.
  - intros post Hin Ht. rewrite !elem_of_cons, elem_of_nil in Hin.
    destruct Hin as [-> | [-> | [-> | []]]]; cbn [event_date]; eauto.
    cbv in Ht. discriminate Ht.
  - exists sorted. split; [exact E | exact Hp].
Defined.

(** C10: [select_future] returns exactly when every post of its input
    carries a date, and raises the [TypeError] of the comparison exactly
    when one does not.  On a snapshot in which a post has a date exactly
    when its type is [event], it returns on the snapshot filtered to type
    [event], as [handle_future_events_command] calls it, and it returns on
    the snapshot itself exactly when that filter removes nothing. *)
Theorem select_future_total_iff_dated today posts cap :
  (select_future today posts cap = Raised TypeError <->
   exists post, post ∈ posts /\ event_date post = None) /\
  ((exists selected, select_future today posts cap = Ok selected) <->
   forall post, post ∈ posts -> is_Some (event_date post)) /\
  ((forall post, post ∈ posts -> post_dated_iff_event post) ->
   (exists selected,
      select_future today (find_posts posts None (Some EVENT)) cap
      = Ok selected) /\
   ((exists selected, select_future today posts cap = Ok selected) <->
    find_posts posts None (Some EVENT) = posts)).
Proof.
  assert (Hcases :
    Forall (fun post => is_Some (event_date post)) posts \/
    Exists (fun post => event_date post = None) posts).
  { induction posts as [|post posts [IH | IH]].
    - left. constructor.
    - destruct (event_date post) eqn:E.
      + left. constructor; [rewrite E; eauto | exact IH].
      + right. constructor. exact E.
    - right. constructor 2. exact IH. }
  assert (Hok : (exists selected, select_future today posts cap = Ok selected) <->
                forall post, post ∈ posts -> is_Some (event_date post)).
  { split.
    - intros [selected E] post Hin. destruct Hcases as [H | H].
      + rewrite Forall_forall in H. apply H, Hin.
      + rewrite (select_future_Raised today posts cap H) in E. discriminate E.
    - intros H. apply Forall_forall in H.
      destruct (select_future_Ok today posts cap H) as (sorted & E & _). eauto. }
  split; [|split; [exact Hok|]].
  - split.
    + intros E. destruct Hcases as [H | H].
      * destruct (select_future_Ok today posts cap H) as (sorted & E' & _).
        rewrite E' in E. discriminate E.
      * apply Exists_exists in H as (post & Hin & Hd). eauto.
    + intros (post & Hin & Hd). apply select_future_Raised.
      apply Exists_exists. eauto.
  - intros Hinv. split.
    + assert (Hd : Forall (fun post => is_Some (event_date post))
                     (find_posts posts None (Some EVENT))).
      { rewrite find_posts_event. apply Forall_forall. intros post Hin.
        apply list_elem_of_In, filter_In in Hin as [Hin Ht].
        apply bool_decide_eq_true in Ht.
        apply (Hinv post); [apply list_elem_of_In, Hin | exact Ht]. }
      destruct (select_future_Ok today _ cap Hd) as (sorted & E & _). eauto.
    + rewrite Hok, find_posts_event, filter_id_iff, Forall_forall. split.
      * intros H post Hin. apply bool_decide_eq_true.
        apply (Hinv post Hin), H, Hin.
      * intros H post Hin. apply (Hinv post Hin).
        pose proof (H post Hin) as Hb. apply bool_decide_eq_true in Hb.
        exact Hb.
Qed.

Lemma select_future_total_iff_dated_witness :
  exists selected,
    select_future (mkDate 2024 1 1)
      (find_posts [mkPost 1 EVENT (Some (mkDate 2099 1 1)); mkPost 7 CHATS None]
         None (Some EVENT)) 3
    = Ok selected.
Proof.
  apply (select_future_total_iff_dated (mkDate 2024 1 1)
           [mkPost 1 EVENT (Some (mkDate 2099 1 1)); mkPost 7 CHATS None] 3).
  intros post Hin. rewrite !elem_of_cons, elem_of_nil in Hin.
  unfold post_dated_iff_event.
  destruct Hin as [-> | [-> | []]]; cbn [event_date type].
  - split; [reflexivity | eauto].
  - split; [intros [? [=]] | intros E; cbv in E; discriminate E].
Defined.

(* ===================================================================== *)
(** * Forwarding                                                          *)
(* ===================================================================== *)

Section Forwarding.

Variable CHAT_ID : Z.
Variable bot : Bot.

(** What [handle_future_events_command] does, step by step: the posts it
  forwards are [select_future_events] of the snapshot it read, with the
  default cap. *)
Lemma future_events_command_run today message w :
handle_future_events_command CHAT_ID bot today message w =
match mapM dynamo_parse_post (dynamo_scan (posts_table w)) with
| Raised e => (Raised e, w)
| Ok posts =>
  match find_posts posts None (Some EVENT) with
  | [] => answer message (MISSING_POSTS_TEXT EVENT) w
  | _ :: _ =>
    match select_future_events today posts 3 with
    | Raised e => (Raised e, w)
    | Ok [] => answer message NO_FUTURE_EVENTS_TEXT w
    | Ok (post :: selected) =>
      forward_posts CHAT_ID bot message (post :: selected) w
    end
  end
end.
Proof.
unfold handle_future_events_command, select_future_events, read_posts,
  mbind, M_bind, lift.
destruct (mapM dynamo_parse_post _) as [posts|e]; [|reflexivity].
destruct (find_posts posts None (Some EVENT)) as [|post l]; [reflexivity|].
destruct (select_future today (post :: l) 3) as [[|post' l']|e]; reflexivity.
Qed.

(** A forward that succeeds is recorded, and the table is left alone. *)
Lemma forward_post_forwarded message post w :
forward_message bot (Message.chat_id message) CHAT_ID (message_id post)
= Ok () ->
forward_post CHAT_ID bot message post w =
(Ok (), mkWorld (posts_table w)
          (outbox w ++ [Forwarded (Message.chat_id message) CHAT_ID
                          (message_id post)])).
Proof. intros H. unfold forward_post. rewrite H. reflexivity. Qed.

(** C8: when the transport fails to forward a post with one of the two
  "message not found" exceptions, [forward_post] deletes the item of
  the post from the table, answers the notice that the post has
  vanished (the text of the source, around the link of the message:
  "wanted to forward the post ..., but it is gone; removed it from my
  base"), forwards nothing and returns; when the transport fails with
  any other exception, [forward_post] raises that exception and leaves
  the table, and what was sent, as they were. *)
Theorem forward_post_failure message post w e :
forward_message bot (Message.chat_id message) CHAT_ID (message_id post)
= Raised e ->
(e = MessageToForwardNotFound \/ e = MessageIdInvalid ->
 forward_post CHAT_ID bot message post w =
 (Ok (),
  mkWorld (delete (message_id post) (posts_table w))
    (outbox w ++
     [Answered (Message.chat_id message)
        (str "Хотел переслать пост https://t.me/c/"
         ++ str_of_int (-1000000000000 - CHAT_ID) ++ str "/"
         ++ str_of_int (message_id post)
         ++ str ", но он исчез. Удалил из своей базы.")]))) /\
(e <> MessageToForwardNotFound -> e <> MessageIdInvalid ->
 forward_post CHAT_ID bot message post w = (Raised e, w)).
Proof.
intros H. unfold forward_post. rewrite H. split.
- assert (Etext :
    MISSING_FORWARD_TEXT (message_url CHAT_ID (message_id post))
    = str "Хотел переслать пост https://t.me/c/"
      ++ str_of_int (-1000000000000 - CHAT_ID) ++ str "/"
      ++ str_of_int (message_id post)
      ++ str ", но он исчез. Удалил из своей базы.").
  { unfold MISSING_FORWARD_TEXT, message_url. cbv zeta.
    change (str "Хотел переслать пост https://t.me/c/")
      with (str "Хотел переслать пост " ++ str "https://t.me/c/").
    rewrite <- !app_assoc. reflexivity. }
  intros [-> | ->]; unfold mbind, M_bind, delete_post, answer, dynamo_delete;
    cbn [posts_table outbox Message.chat_id]; rewrite Etext; reflexivity.
- intros H1 H2. destruct e; try reflexivity; congruence.
Qed.

End Forwarding.

Lemma forward_post_failure_witness :
  let bot := mkBot (fun _ _ message_id =>
    if message_id =? 21 then Raised MessageToForwardNotFound
    else Raised (TransportError 0)) in
  let message := Message.mk 500 77 (Some (str "/contacts")) in
  let post := mkPost 21 CONTACTS None in
  let w := mkWorld {[ 21 := dynamo_format_post post ]} [] in
  forward_post (-1001627609834) bot message post w =
  (Ok (),
   mkWorld (delete 21 {[ 21 := dynamo_format_post post ]})
     [Answered 77
        (str ("Хотел переслать пост https://t.me/c/1627609834/21, "
              ++ "но он исчез. Удалил из своей базы."))]).
Proof.
  intros bot message post w.
  rewrite (proj1 (forward_post_failure (-1001627609834) bot message post w
                    MessageToForwardNotFound eq_refl) (or_introl eq_refl)).
  vm_compute. reflexivity.
Defined.

(* ===================================================================== *)
(** * Looking posts up                                                    *)
(* ===================================================================== *)

Lemma head_filter_Some {A} (f : A -> bool) l x :
  head (List.filter f l) = Some x <->
  exists l1 l2, l = l1 ++ x :: l2 /\ f x = true /\
    forall y, y ∈ l1 -> f y = false.
Proof.
  induction l as [|a l IH]; cbn [List.filter].
  - split; [discriminate|]. intros (l1 & l2 & E & _).
    destruct l1; discriminate E.
  - destruct (f a) eqn:Ea.
    + cbn [head]. split.
      * intros [= <-]. exists [], l. split; [reflexivity|]. split; [exact Ea|].
        intros y Hy. inversion Hy.
      * intros ([|b l1] & l2 & E & Hx & Hl1).
        -- injection E as -> _. reflexivity.
        -- injection E as <- _. rewrite (Hl1 a) in Ea by left. discriminate.
    + rewrite IH. split.
      * intros (l1 & l2 & -> & Hx & Hl1). exists (a :: l1), l2.
        split; [reflexivity|]. split; [exact Hx|].
        intros y Hy. apply elem_of_cons in Hy as [-> | Hy]; auto.
      * intros ([|b l1] & l2 & E & Hx & Hl1).
        -- injection E as -> _. congruence.
        -- injection E as <- ->. exists l1, l2. split; [reflexivity|].
           split; [exact Hx|]. intros y Hy. apply Hl1. right. exact Hy.
Qed.

Lemma head_filter_None {A} (f : A -> bool) l :
  head (List.filter f l) = None <-> forall y, y ∈ l -> f y = false.
Proof.
  induction l as [|a l IH]; cbn [List.filter].
  - split; [|reflexivity]. intros _ y Hy. inversion Hy.
  - destruct (f a) eqn:Ea.
    + cbn [head]. split; [discriminate|]. intros H.
      rewrite (H a) in Ea by left. discriminate.
    + rewrite IH. split.
      * intros H y Hy. apply elem_of_cons in Hy as [-> | Hy]; auto.
      * intros H y Hy. apply H. right. exact Hy.
Qed.

Lemma find_posts_test_type ty post :
  ty <> [] ->
  find_posts_test None (Some ty) post = bool_decide (type post = ty).
Proof. intros Hne. destruct ty; [congruence | reflexivity]. Qed.

(** X1: [find_post(posts, type=ty)], for a type that is not the empty
    string, returns the first post of the snapshot that has this type,
    and [None] exactly when no post has it (so on the empty snapshot). *)
Theorem find_post_by_type posts ty :
  ty <> [] ->
  (forall post,
     find_post posts None (Some ty) = Some post <->
     exists before after,
       posts = before ++ post :: after /\ type post = ty /\
       forall other, other ∈ before -> type other <> ty) /\
  (find_post posts None (Some ty) = None <->
   forall other, other ∈ posts -> type other <> ty).
Proof.
  intros Hne. unfold find_post, find_posts. split.
  - intros post. rewrite head_filter_Some. split.
    + intros (l1 & l2 & E & Hp & Hl1). exists l1, l2. split; [exact E|].
      rewrite find_posts_test_type in Hp by exact Hne.
      apply bool_decide_eq_true in Hp. split; [exact Hp|].
      intros other Ho. specialize (Hl1 other Ho).
      rewrite find_posts_test_type in Hl1 by exact Hne.
      apply bool_decide_eq_false in Hl1. exact Hl1.
    + intros (l1 & l2 & E & Hp & Hl1). exists l1, l2. split; [exact E|].
      rewrite find_posts_test_type by exact Hne.
      split; [apply bool_decide_eq_true, Hp|].
      intros other Ho. rewrite find_posts_test_type by exact Hne.
      apply bool_decide_eq_false, Hl1, Ho.
  - rewrite head_filter_None. split.
    + intros H other Ho. specialize (H other Ho).
      rewrite find_posts_test_type in H by exact Hne.
      apply bool_decide_eq_false in H. exact H.
    + intros H other Ho. rewrite find_posts_test_type by exact Hne.
      apply bool_decide_eq_false, H, Ho.
Qed.

Lemma find_post_by_type_witness :
  find_post [mkPost 1 EVENT (Some (mkDate 2030 5 1)); mkPost 2 CHATS None;
             mkPost 3 CHATS None] None (Some CHATS)
  = Some (mkPost 2 CHATS None).
Proof.
  apply (find_post_by_type
           [mkPost 1 EVENT (Some (mkDate 2030 5 1)); mkPost 2 CHATS None;
            mkPost 3 CHATS None] CHATS).
  - intros E. cbv in E. discriminate E.
  - exists [mkPost 1 EVENT (Some (mkDate 2030 5 1))], [mkPost 3 CHATS None].
    split; [reflexivity|]. split; [reflexivity|].
    intros other Ho. apply list_elem_of_singleton in Ho as ->.
    intros E. cbv in E. discriminate E.
Defined.

(** X2: a filter that is [None], the number 0 or the empty string is
    falsy: [find_posts] then selects nothing and [find_post] returns
    [None], whatever the snapshot holds; in particular no post is ever
    found under the [message_id] 0. *)
Theorem find_posts_falsy_filter posts mid ty :
  mid = None \/ mid = Some 0 ->
  ty = None \/ ty = Some [] ->
  find_posts posts mid ty = [] /\ find_post posts mid ty = None.
Proof.
  intros Hm Ht.
  assert (E : find_posts posts mid ty = []).
  { unfold find_posts. induction posts as [|post posts IH]; [reflexivity|].
    cbn [List.filter]. rewrite IH.
    destruct Hm as [-> | ->], Ht as [-> | ->]; reflexivity. }
  split; [exact E|]. unfold find_post. rewrite E. reflexivity.
Qed.

Lemma find_posts_falsy_filter_witness :
  find_post [mkPost 0 CHATS None] (Some 0) None = None.
Proof.
  apply (find_posts_falsy_filter [mkPost 0 CHATS None] (Some 0) None).
  - right. reflexivity.
  - left. reflexivity.
Defined.

(* ===================================================================== *)
(** * Items: missing attributes, and what is written                      *)
(* ===================================================================== *)

(** [dynamo_parse_post] first reads the key attribute, as [item_key]
    does. *)
Lemma dynamo_parse_post_key item :
  dynamo_parse_post item =
  obind (item_key item) (fun message_id =>
    obind (obind (getitem item (str "type"))
             (fun a => getitem a Dynamo.S)) (fun type =>
      obind
        match item !! str "event_date" with
        | Some a =>
          obind (getitem a Dynamo.S) (fun s =>
            obind (fromisoformat s) (fun d => Ok (Some d)))
        | None => Ok None
        end
        (fun event_date => Ok (mkPost message_id type event_date)))).
Proof.
  unfold dynamo_parse_post, item_key, MESSAGE_ID_KEY, mbind, outcome_bind,
    mret, outcome_ret, obind.
  destruct (getitem item (str "message_id")) as [a|]; [|reflexivity].
  destruct (getitem a Dynamo.N) as [n|]; [|reflexivity].
  destruct (int_of_str n); [|reflexivity].
  destruct (getitem item (str "type")) as [a'|]; reflexivity.
Qed.

Lemma parse_item_key item post :
  dynamo_parse_post item = Ok post -> item_key item = Ok (message_id post).
Proof.
  rewrite dynamo_parse_post_key. unfold obind.
  destruct (item_key item) as [mid|]; [|discriminate].
  repeat match goal with
  | |- match ?x with _ => _ end = _ -> _ =>
    destruct x; try discriminate
  end; intros [= <-]; reflexivity.
Qed.

(** X3: [dynamo_parse_post] fails with the failure of reading the key
    attribute (a [KeyError] when the item has no [message_id]), fails
    with [KeyError] on an item without [type], and reads an item without
    [event_date] as a post without date. *)
Theorem dynamo_parse_post_missing item :
  (item !! str "message_id" = None ->
   dynamo_parse_post item = Raised KeyError) /\
  (forall e, item_key item = Raised e -> dynamo_parse_post item = Raised e) /\
  (forall mid,
     item_key item = Ok mid -> item !! str "type" = None ->
     dynamo_parse_post item = Raised KeyError) /\
  (forall mid ty,
     item_key item = Ok mid ->
     item !! str "type" = Some {[ Dynamo.S := ty ]} ->
     item !! str "event_date" = None ->
     dynamo_parse_post item = Ok (mkPost mid ty None)).
Proof.
  split; [|split; [|split]].
  - intros H. unfold dynamo_parse_post, getitem. rewrite H. reflexivity.
  - intros e H. rewrite dynamo_parse_post_key, H. reflexivity.
  - intros mid H Ht. rewrite dynamo_parse_post_key, H.
    unfold getitem. rewrite Ht. reflexivity.
  - intros mid ty H Ht Hd. rewrite dynamo_parse_post_key, H.
    unfold getitem. rewrite Ht, Hd. cbn [obind].
    rewrite lookup_singleton_eq. reflexivity.
Qed.

Lemma dynamo_parse_post_missing_witness :
  dynamo_parse_post {[ str "type" := {[ Dynamo.S := CHATS ]} ]}
  = Raised KeyError /\
  dynamo_parse_post
    {[ str "message_id" := {[ Dynamo.N := str "7" ]};
       str "type" := {[ Dynamo.S := CHATS ]} ]}
  = Ok (mkPost 7 CHATS None).
Proof.
  split.
  - apply (proj1 (dynamo_parse_post_missing
                    {[ str "type" := {[ Dynamo.S := CHATS ]} ]})).
    apply lookup_singleton_ne, key_type_ne_message_id.
  - apply (proj2 (proj2 (proj2 (dynamo_parse_post_missing
             {[ str "message_id" := {[ Dynamo.N := str "7" ]};
                str "type" := {[ Dynamo.S := CHATS ]} ]}))) 7 CHATS).
    + vm_compute. reflexivity.
    + rewrite lookup_insert_ne
        by (intros E; symmetry in E; exact (key_type_ne_message_id E)).
      apply lookup_singleton_eq.
    + rewrite lookup_insert_ne
        by (intros E; symmetry in E; exact (key_event_date_ne_message_id E)).
      apply lookup_singleton_ne.
      intros E; symmetry in E; exact (key_event_date_ne_type E).
Defined.

(** X4: the item [dynamo_format_post] builds has the attributes [type]
    and [message_id], and the attribute [event_date] exactly when the
    post has a date: a post without date is written without that
    attribute, not with an empty one. *)
Theorem dynamo_format_post_attributes post :
  dom (dynamo_format_post post) =
  {[ str "type"; str "message_id" ]} ∪
  match event_date post with
  | Some _ => {[ str "event_date" ]}
  | None => (∅ : gset pystr)
  end.
Proof.
  unfold dynamo_format_post. destruct (event_date post).
  - rewrite !dom_insert_L, dom_singleton_L. set_solver.
  - rewrite !dom_insert_L, dom_singleton_L. set_solver.
Qed.

(* ===================================================================== *)
(** * The table: writes, reads and the key                                *)
(* ===================================================================== *)

(** X5: after [put_post], [dynamo_get] under the [message_id] of the post
    returns an item that is read back as the post, whatever was stored
    there before; after [delete_post] it returns [None]; neither changes
    what is stored under another key. *)
Theorem put_delete_get post w :
  (forall d, event_date post = Some d -> date_valid d = true) ->
  (exists item,
     dynamo_get (posts_table (exec (put_post post) w)) (message_id post)
     = Some item /\
     dynamo_parse_post item = Ok post) /\
  dynamo_get (posts_table (exec (delete_post (message_id post)) w))
    (message_id post) = None /\
  (forall key,
     key <> message_id post ->
     dynamo_get (posts_table (exec (put_post post) w)) key
     = dynamo_get (posts_table w) key /\
     dynamo_get (posts_table (exec (delete_post (message_id post)) w)) key
     = dynamo_get (posts_table w) key).
Proof.
  intros Hv. unfold exec, dynamo_get. rewrite put_post_run.
  cbn [snd posts_table delete_post dynamo_delete]. split; [|split].
  - exists (dynamo_format_post post). rewrite lookup_insert_eq.
    split; [reflexivity | apply dynamo_parse_format, Hv].
  - apply lookup_delete_eq.
  - intros key Hne. split.
    + apply lookup_insert_ne. congruence.
    + apply lookup_delete_ne. congruence.
Qed.

Lemma put_delete_get_witness :
  exists item,
    dynamo_get
      (posts_table (exec (put_post (mkPost 42 EVENT (Some (mkDate 2030 5 1))))
                      (mkWorld ∅ [])))
      42 = Some item /\
    dynamo_parse_post item = Ok (mkPost 42 EVENT (Some (mkDate 2030 5 1))).
Proof.
  apply (put_delete_get (mkPost 42 EVENT (Some (mkDate 2030 5 1)))
           (mkWorld ∅ [])).
  intros d [= <-]. reflexivity.
Defined.

Lemma mapM_Ok_elem_of_inv {A B} (f : A -> outcome B) l k y :
  mapM f l = Ok k -> y ∈ k -> exists x, x ∈ l /\ f x = Ok y.
Proof.
  rewrite mapM_Ok_Forall2. induction 1 as [|x' y' l k Ex _ IH].
  - intros H. inversion H.
  - rewrite elem_of_cons. intros [-> | Hy].
    + exists x'. split; [left | exact Ex].
    + destruct (IH Hy) as (x & Hx & E). exists x. split; [right; exact Hx | exact E].
Qed.

(** A post read from a keyed table has the key of its item as
    [message_id]. *)
Lemma read_posts_keyed w posts post :
  keyed (posts_table w) -> read_posts w = (Ok posts, w) -> post ∈ posts ->
  exists item,
    posts_table w !! message_id post = Some item /\
    dynamo_parse_post item = Ok post.
Proof.
  intros Hk Hr Hin. unfold read_posts in Hr. injection Hr as Hr.
  destruct (mapM_Ok_elem_of_inv _ _ _ _ Hr Hin) as (item & Hitem & Ep).
  apply elem_of_dynamo_scan in Hitem as (key & Hkey).
  pose proof (Hk key item Hkey) as E1.
  pose proof (parse_item_key item post Ep) as E2.
  assert (key = message_id post) by congruence. subst key. eauto.
Qed.

(** X6: on a keyed table, the posts [read_posts] returns have pairwise
    different [message_id]s: at most one post per message. *)
Theorem read_posts_distinct_ids w posts :
  keyed (posts_table w) -> read_posts w = (Ok posts, w) ->
  NoDup (message_id <$> posts).
Proof.
  intros Hk Hr. unfold read_posts in Hr. injection Hr as Hr.
  apply mapM_Ok_Forall2 in Hr. unfold dynamo_scan in Hr.
  assert (E : message_id <$> posts = (map_to_list (posts_table w)).*1).
  { assert (Hall : Forall (fun kv => item_key kv.2 = Ok kv.1)
                     (map_to_list (posts_table w))).
    { apply Forall_forall. intros [key item] Hin.
      apply elem_of_map_to_list in Hin. exact (Hk key item Hin). }
    revert posts Hr Hall.
    induction (map_to_list (posts_table w)) as [|[key item] l IH];
      intros posts Hr Hall.
    - inversion Hr. reflexivity.
    - cbn [fmap list_fmap] in Hr.
      inversion Hr as [|? post ? posts' Ep Hr']; subst.
      apply Forall_cons in Hall as [Hkey Hall]. cbn [fst snd] in Hkey.
      apply parse_item_key in Ep.
      cbn [fmap list_fmap fst]. f_equal.
      + congruence.
      + apply IH; assumption. }
  rewrite E. apply NoDup_fst_map_to_list.
Qed.

Lemma read_posts_distinct_ids_witness :
  let w := mkWorld
    {[ 41 := dynamo_format_post (mkPost 41 CHATS None);
       42 := dynamo_format_post (mkPost 42 CONTACTS None) ]} [] in
  exists posts,
    read_posts w = (Ok posts, w) /\ length posts = 2%nat /\
    NoDup (message_id <$> posts).
Proof.
  intros w.
  destruct (fst (read_posts w)) as [posts|] eqn:Er;
    [|vm_compute in Er; discriminate Er].
  assert (Hr : read_posts w = (Ok posts, w)).
  { unfold read_posts in *. cbn [fst] in Er. rewrite Er. reflexivity. }
  exists posts. split; [exact Hr|]. split.
  - vm_compute in Er. injection Er as <-. reflexivity.
  - apply (read_posts_distinct_ids w posts); [|exact Hr].
    intros key item H. unfold w in H. cbn [posts_table] in H.
    rewrite lookup_insert in H. case_decide.
    + injection H as <-. subst key. apply item_key_format.
    + apply lookup_singleton_Some in H as [<- <-]. apply item_key_format.
Defined.

(* ===================================================================== *)
(** * More on the two chat handlers                                       *)
(* ===================================================================== *)

(** X7: the two chat handlers send nothing, and change the table at most
    under the [message_id] of the message they handle. *)
Theorem chat_handlers_frame message w :
  let w1 := exec (handle_chat_new_message message) w in
  let w2 := exec (handle_chat_edited_message message) w in
  outbox w1 = outbox w /\ outbox w2 = outbox w /\
  forall key,
    key <> Message.message_id message ->
    posts_table w1 !! key = posts_table w !! key /\
    posts_table w2 !! key = posts_table w !! key.
Proof.
  cbv zeta. unfold exec. rewrite new_message_run, edited_message_run.
  destruct (parse_message_footer message) as [[footer|]|e];
    cbn [snd outbox posts_table].
  - repeat split; try reflexivity; apply lookup_insert_ne; congruence.
  - destruct (mapM dynamo_parse_post _) as [posts|e];
      [|repeat split; reflexivity].
    destruct (find_post posts _ _) as [post|] eqn:Ef;
      [|repeat split; reflexivity].
    apply find_post_by_id_Some in Ef as (Hm & _ & _).
    cbn [snd outbox posts_table]. repeat split; try reflexivity.
    apply lookup_delete_ne. congruence.
  - repeat split; reflexivity.
Qed.

(** X8: [handle_chat_new_message] never deletes: a key that holds an
    item before still holds one after; and on a text without any tag it
    returns with the world unchanged. *)
Theorem new_message_never_deletes message w :
  (forall key,
     is_Some (posts_table w !! key) ->
     is_Some (posts_table (exec (handle_chat_new_message message) w) !! key)) /\
  (forall text,
     Message.text message = Some text ->
     no_event_tag text -> no_nav_tag text ->
     handle_chat_new_message message w = (Ok (), w)).
Proof.
  split.
  - intros key Hk. unfold exec. rewrite new_message_run.
    destruct (parse_message_footer message) as [[footer|]|e];
      cbn [snd posts_table]; try exact Hk.
    rewrite lookup_insert. case_decide; eauto.
  - intros text Ht He Hn. rewrite new_message_run.
    unfold parse_message_footer. rewrite Ht, (parse_no_tag text He Hn).
    reflexivity.
Qed.

Lemma new_message_never_deletes_witness :
  handle_chat_new_message (Message.mk 42 7 (Some (str "just talking")))
    (mkWorld ∅ [])
  = (Ok (), mkWorld ∅ []).
Proof.
  apply (proj2 (new_message_never_deletes
                  (Message.mk 42 7 (Some (str "just talking")))
                  (mkWorld ∅ [])) (str "just talking")).
  - reflexivity.
  - apply search_event_None. vm_compute. reflexivity.
  - apply search_nav_None. vm_compute. reflexivity.
Defined.

(** X9: removal.  When every item of the table can be read, the message
    has an id other than 0 and its item carries that id as key attribute,
    editing the message to a text without any tag returns, leaves no item
    under its id and leaves the other keys as they were. *)
Theorem edited_message_removes message text item w :
  readable (posts_table w) ->
  Message.message_id message <> 0 ->
  posts_table w !! Message.message_id message = Some item ->
  item_key item = Ok (Message.message_id message) ->
  Message.text message = Some text ->
  no_event_tag text -> no_nav_tag text ->
  handle_chat_edited_message message w =
  (Ok (), mkWorld (delete (Message.message_id message) (posts_table w))
            (outbox w)).
Proof.
  intros Hr Hne Hitem Hkey Ht He Hn. rewrite edited_message_run.
  unfold parse_message_footer. rewrite Ht, (parse_no_tag text He Hn).
  destruct (readable_scan _ Hr) as (posts & Eposts). rewrite Eposts.
  destruct (Hr _ _ Hitem) as (post & Ep).
  assert (Hid : message_id post = Message.message_id message).
  { apply parse_item_key in Ep. congruence. }
  assert (Hin : post ∈ posts).
  { apply (mapM_Ok_elem_of _ _ _ item _ Eposts); [|exact Ep].
    apply elem_of_dynamo_scan. eauto. }
  destruct (find_post_by_id_found posts _ post Hin Hid Hne) as (post' & Ef).
  rewrite Ef. apply find_post_by_id_Some in Ef as (-> & _ & _). reflexivity.
Qed.

Lemma edited_message_removes_witness :
  let message := Message.mk 42 7 (Some (str "just talking")) in
  let w := mkWorld {[ 42 := dynamo_format_post (mkPost 42 CONTACTS None) ]} [] in
  handle_chat_edited_message message w =
  (Ok (), mkWorld (delete (Message.message_id message) (posts_table w))
            (outbox w)).
Proof.
  intros message w.
  apply (edited_message_removes message (str "just talking")
           (dynamo_format_post (mkPost 42 CONTACTS None)) w).
  - intros key item' H. unfold w in H. cbn [posts_table] in H.
    apply lookup_singleton_Some in H as [<- <-].
    exists (mkPost 42 CONTACTS None). apply dynamo_parse_format. intros d [=].
  - unfold message. cbn. lia.
  - unfold w, message. apply lookup_singleton_eq.
  - apply item_key_format.
  - reflexivity.
  - apply search_event_None. vm_compute. reflexivity.
  - apply search_nav_None. vm_compute. reflexivity.
Defined.

Lemma find_post_id_zero posts : find_post posts (Some 0) None = None.
Proof.
  unfold find_post, find_posts.
  induction posts as [|post posts IH]; [reflexivity | exact IH].
Qed.

(** X10: the edge of the lookup by id: for a message whose id is 0,
    editing to a text without any tag leaves the whole world as it was,
    also when an item is stored under 0: that item is never removed. *)
Theorem edited_message_id_zero message text w :
  Message.message_id message = 0 ->
  Message.text message = Some text ->
  no_event_tag text -> no_nav_tag text ->
  exec (handle_chat_edited_message message) w = w.
Proof.
  intros Hz Ht He Hn. unfold exec. rewrite edited_message_run.
  unfold parse_message_footer. rewrite Ht, (parse_no_tag text He Hn), Hz.
  destruct (mapM dynamo_parse_post _) as [posts|e]; [|reflexivity].
  rewrite find_post_id_zero. reflexivity.
Qed.

Lemma edited_message_id_zero_witness :
  exec (handle_chat_edited_message (Message.mk 0 7 (Some (str "just talking"))))
    (mkWorld {[ 0 := dynamo_format_post (mkPost 0 CONTACTS None) ]} [])
  = mkWorld {[ 0 := dynamo_format_post (mkPost 0 CONTACTS None) ]} [].
Proof.
  apply (edited_message_id_zero
           (Message.mk 0 7 (Some (str "just talking"))) (str "just talking")).
  - reflexivity.
  - reflexivity.
  - apply search_event_None. vm_compute. reflexivity.
  - apply search_nav_None. vm_compute. reflexivity.
Defined.

(** X11: on a text that has an event tag or a navigation tag somewhere,
    the edited-message handler does exactly what the new-message handler
    does; and the new-message handler, run twice on a message, leaves
    the world as one run does. *)
Theorem new_and_edited_agree message text w :
  Message.text message = Some text ->
  (exists i d, event_tag_at text i d) \/ (exists i ty, nav_tag_at text i ty) ->
  handle_chat_edited_message message w = handle_chat_new_message message w /\
  exec (handle_chat_new_message message)
    (exec (handle_chat_new_message message) w)
  = exec (handle_chat_new_message message) w.
Proof.
  intros Ht Htag.
  assert (Hp : parse_message_footer message <> Ok None).
  { unfold parse_message_footer. rewrite Ht. intros E.
    apply parse_None_inv in E as [He Hn].
    destruct Htag as [(i & d & H) | (i & ty & H)];
      [exact (He i d H) | exact (Hn i ty H)]. }
  unfold exec. rewrite edited_message_run, !new_message_run.
  destruct (parse_message_footer message) as [[footer|]|e] eqn:Ep;
    try congruence.
  - split; [reflexivity|]. cbn [snd posts_table outbox].
    rewrite insert_insert_eq. reflexivity.
  - split; reflexivity.
Qed.

Lemma new_and_edited_agree_witness :
  handle_chat_edited_message (Message.mk 42 7 (Some (str "see #contacts")))
    (mkWorld ∅ [])
  = handle_chat_new_message (Message.mk 42 7 (Some (str "see #contacts")))
      (mkWorld ∅ []).
Proof.
  apply (new_and_edited_agree (Message.mk 42 7 (Some (str "see #contacts")))
           (str "see #contacts") (mkWorld ∅ [])).
  - reflexivity.
  - right. exists 4%nat, CONTACTS.
    apply nav_tag_at_check; vm_compute; reflexivity.
Defined.

Lemma parse_post_footer_Raised text e :
  parse_post_footer text = Raised e -> e = ValueError.
Proof.
  unfold parse_post_footer.
  destruct (Re.search EVENT_POST_FOOTER_PATTERN text) as [caps|] eqn:Ee.
  - apply search_event_Some in Ee as (i & d & -> & _).
    destruct (fromisoformat d) eqn:Ed; [discriminate|].
    intros [= <-]. eapply fromisoformat_Raised, Ed.
  - destruct (Re.search NAV_POST_FOOTER_PATTERN text) as [caps|] eqn:En;
      [|discriminate].
    apply search_nav_Some in En as (i & ty & -> & _). discriminate.
Qed.

Lemma parse_message_footer_Raised message e :
  parse_message_footer message = Raised e -> e = ValueError \/ e = TypeError.
Proof.
  unfold parse_message_footer. destruct (Message.text message) as [text|].
  - intros H. left. eapply parse_post_footer_Raised, H.
  - intros [= <-]. right. reflexivity.
Qed.

Lemma int_of_str_Raised s e : int_of_str s = Raised e -> e = ValueError.
Proof.
  unfold int_of_str. destruct s as [|c s]; [intros [= <-]; reflexivity|].
  destruct (c =? 45)%N.
  - destruct s; [intros [= <-]; reflexivity|].
    destruct (codes_uint _); [discriminate | intros [= <-]; reflexivity].
  - destruct (codes_uint _); [discriminate | intros [= <-]; reflexivity].
Qed.

Lemma getitem_Raised `{Countable K} {V} (d : gmap K V) k e :
  getitem d k = Raised e -> e = KeyError.
Proof.
  unfold getitem. destruct (d !! k); [discriminate | intros [= <-]; reflexivity].
Qed.

Lemma dynamo_parse_post_Raised item e :
  dynamo_parse_post item = Raised e -> e = KeyError \/ e = ValueError.
Proof.
  unfold dynamo_parse_post, mbind, outcome_bind, mret, outcome_ret, obind.
  destruct (getitem item (str "message_id")) as [a|] eqn:E1;
    [|intros [= <-]; left; eapply getitem_Raised, E1].
  destruct (getitem a Dynamo.N) as [n|] eqn:E2;
    [|intros [= <-]; left; eapply getitem_Raised, E2].
  destruct (int_of_str n) eqn:E3;
    [|intros [= <-]; right; eapply int_of_str_Raised, E3].
  destruct (getitem item (str "type")) as [a'|] eqn:E4;
    [|intros [= <-]; left; eapply getitem_Raised, E4].
  destruct (getitem a' Dynamo.S) as [ty|] eqn:E5;
    [|intros [= <-]; left; eapply getitem_Raised, E5].
  destruct (item !! str "event_date") as [a''|]; [|discriminate].
  destruct (getitem a'' Dynamo.S) as [s|] eqn:E6;
    [|intros [= <-]; left; eapply getitem_Raised, E6].
  destruct (fromisoformat s) eqn:E7; [discriminate|].
  intros [= <-]. right. eapply fromisoformat_Raised, E7.
Qed.

(** X12: failures of the chat handlers that come from the message or
    from an item, and not from a call of the store.  A message without
    text makes both handlers raise [TypeError]; a text whose leftmost
    event tag carries a string [date.fromisoformat] rejects makes both
    raise [ValueError]; in both cases nothing was written or sent.  When
    the text has no tag and reading the posts fails on an item, the
    edited-message handler raises that error, a [KeyError] or a
    [ValueError], and has deleted nothing. *)
Theorem chat_handlers_parse_failure message w :
  (Message.text message = None ->
   handle_chat_new_message message w = (Raised TypeError, w) /\
   handle_chat_edited_message message w = (Raised TypeError, w)) /\
  (forall text i d,
     Message.text message = Some text ->
     event_tag_at text i d -> no_event_tag_before text i ->
     fromisoformat d = Raised ValueError ->
     handle_chat_new_message message w = (Raised ValueError, w) /\
     handle_chat_edited_message message w = (Raised ValueError, w)) /\
  (forall text e,
     Message.text message = Some text ->
     no_event_tag text -> no_nav_tag text ->
     read_posts w = (Raised e, w) ->
     (e = KeyError \/ e = ValueError) /\
     handle_chat_edited_message message w = (Raised e, w)).
Proof.
  rewrite new_message_run, edited_message_run. unfold parse_message_footer.
  split; [|split].
  - intros ->. split; reflexivity.
  - intros text i d -> Hat Hb Hd.
    rewrite (parse_event_tag text i d Hat Hb), Hd. split; reflexivity.
  - intros text e -> He Hn Hr. rewrite (parse_no_tag text He Hn).
    unfold read_posts in Hr. injection Hr as Hr. rewrite Hr.
    split; [|reflexivity].
    apply mapM_Raised in Hr as (item & _ & Ei).
    apply dynamo_parse_post_Raised in Ei. exact Ei.
Qed.

Lemma chat_handlers_parse_failure_witness :
  let message := Message.mk 42 7 (Some (str "party #event 2030-13-01")) in
  let w := mkWorld {[ 5 := dynamo_format_post (mkPost 5 CHATS None) ]} [] in
  handle_chat_new_message message w = (Raised ValueError, w) /\
  handle_chat_edited_message message w = (Raised ValueError, w).
Proof.
  intros message w.
  apply (proj1 (proj2 (chat_handlers_parse_failure message w))
           (str "party #event 2030-13-01") 6%nat (str "2030-13-01")).
  - reflexivity.
  - apply event_tag_at_check; vm_compute; reflexivity.
  - apply no_event_tag_before_check. each_offset.
  - vm_compute. reflexivity.
Defined.

(** X13: [parse_post_footer] raises nothing but [ValueError], and raises
    it exactly when the leftmost event tag of the text carries a string
    that [date.fromisoformat] rejects. *)
Theorem parse_post_footer_raises_iff text e :
  parse_post_footer text = Raised e <->
  e = ValueError /\
  exists i d,
    event_tag_at text i d /\ no_event_tag_before text i /\
    fromisoformat d = Raised ValueError.
Proof.
  split.
  - intros H. pose proof (parse_post_footer_Raised text e H) as ->.
    split; [reflexivity|]. unfold parse_post_footer in H.
    destruct (Re.search EVENT_POST_FOOTER_PATTERN text) as [caps|] eqn:Ee.
    + apply search_event_Some in Ee as (i & d & -> & Hat & Hb).
      exists i, d. split; [exact Hat|]. split; [exact Hb|].
      destruct (fromisoformat d) eqn:Ed; [discriminate|].
      f_equal. eapply fromisoformat_Raised, Ed.
    + destruct (Re.search NAV_POST_FOOTER_PATTERN text) as [caps|] eqn:En;
        [|discriminate].
      apply search_nav_Some in En as (i & ty & -> & _). discriminate.
  - intros (-> & i & d & Hat & Hb & Hd).
    rewrite (parse_event_tag text i d Hat Hb), Hd. reflexivity.
Qed.

(* ===================================================================== *)
(** * More on the selector                                                *)
(* ===================================================================== *)

(** X14: on dated posts [select_future] returns, and the number of posts
    it returns is given by [cap] and by the number [n] of posts dated
    today or later: the smaller of [cap] and [n] when [cap] is not
    negative, and [n + cap], or 0 when that is negative, when [cap] is
    negative (the slice then drops the last [-cap] posts). *)
Theorem select_future_length today posts cap :
  (forall post, post ∈ posts -> is_Some (event_date post)) ->
  exists selected,
    select_future today posts cap = Ok selected /\
    length selected =
    let n := length (List.filter (on_or_after today) posts) in
    if cap <? 0 then (n - Z.to_nat (- cap))%nat
    else Nat.min (Z.to_nat cap) n.
Proof.
  intros Hd. apply Forall_forall in Hd.
  destruct (select_future_Ok today posts cap Hd) as (sorted & E & Hp & _).
  exists (slice_to cap sorted). split; [exact E|].
  cbv zeta. rewrite <- (Permutation_length Hp). unfold slice_to.
  destruct (cap <? 0); rewrite length_take; lia.
Qed.

Lemma select_future_length_witness :
  exists selected,
    select_future (mkDate 2024 1 1)
      [mkPost 1 EVENT (Some (mkDate 2099 1 1));
       mkPost 2 EVENT (Some (mkDate 2000 1 1));
       mkPost 3 EVENT (Some (mkDate 2099 6 1))] (-1)
    = Ok selected /\
    length selected = 1%nat.
Proof.
  apply (select_future_length (mkDate 2024 1 1)
           [mkPost 1 EVENT (Some (mkDate 2099 1 1));
            mkPost 2 EVENT (Some (mkDate 2000 1 1));
            mkPost 3 EVENT (Some (mkDate 2099 6 1))] (-1)).
  intros post Hin. rewrite !elem_of_cons, elem_of_nil in Hin.
  destruct Hin as [-> | [-> | [-> | []]]]; cbn [event_date]; eauto.
Defined.

Lemma event_date_le_trans : Transitive event_date_le.
Proof.
  intros p q r. unfold event_date_le, date_le.
  destruct (event_date p) as [a|], (event_date q) as [b|],
    (event_date r) as [c|]; try tauto.
  rewrite !date_ge_spec. lia.
Qed.

(** X15: for a cap that is not negative, [select_future] keeps the
    earliest posts: a post dated today or later that is left out is dated
    no earlier than any post that is selected. *)
Theorem select_future_earliest today posts cap selected :
  0 <= cap ->
  (forall post, post ∈ posts -> is_Some (event_date post)) ->
  select_future today posts cap = Ok selected ->
  forall kept left_out,
    kept ∈ selected -> left_out ∈ posts ->
    on_or_after today left_out = true -> left_out ∉ selected ->
    event_date_le kept left_out.
Proof.
  intros Hcap Hd E kept q Hkept Hq Hfuture Hout.
  apply Forall_forall in Hd.
  destruct (select_future_Ok today posts cap Hd) as (sorted & E' & Hp & Hs & _).
  rewrite E in E'. injection E' as ->.
  unfold slice_to in *. destruct (Z.ltb_spec cap 0) as [?|_]; [lia|].
  assert (Hq' : q ∈ sorted).
  { rewrite Hp. apply list_elem_of_In, filter_In.
    split; [apply list_elem_of_In, Hq | exact Hfuture]. }
  rewrite <- (take_drop (Z.to_nat cap) sorted) in Hq', Hs.
  apply elem_of_app in Hq' as [Hq' | Hq']; [contradiction|].
  apply (@Sorted_StronglySorted _ _ event_date_le_trans) in Hs.
  eapply StronglySorted_app_1_elem_of; eassumption.
Qed.

Lemma select_future_earliest_witness :
  event_date_le (mkPost 1 EVENT (Some (mkDate 2099 1 1)))
    (mkPost 3 EVENT (Some (mkDate 2099 6 1))).
Proof.
  apply (select_future_earliest (mkDate 2024 1 1)
           [mkPost 3 EVENT (Some (mkDate 2099 6 1));
            mkPost 1 EVENT (Some (mkDate 2099 1 1))] 1
           [mkPost 1 EVENT (Some (mkDate 2099 1 1))]).
  - lia.
  - intros post Hin. rewrite !elem_of_cons, elem_of_nil in Hin.
    destruct Hin as [-> | [-> | []]]; cbn [event_date]; eauto.
  - vm_compute. reflexivity.
  - apply list_elem_of_singleton. reflexivity.
  - left.
  - reflexivity.
  - intros H. apply list_elem_of_singleton in H. discriminate H.
Defined.

(* ===================================================================== *)
(** * The query commands                                                  *)
(* ===================================================================== *)

Lemma drops_and_sends_refl n w : drops_and_sends n w w.
Proof.
  split; [reflexivity|]. exists []. rewrite app_nil_r. split; [reflexivity|].
  cbn. lia.
Qed.

Lemma drops_and_sends_trans n m w1 w2 w3 :
  drops_and_sends n w1 w2 -> drops_and_sends m w2 w3 ->
  drops_and_sends (n + m) w1 w3.
Proof.
  intros (Hs1 & s1 & E1 & L1) (Hs2 & s2 & E2 & L2). split.
  - etransitivity; eassumption.
  - exists (s1 ++ s2). rewrite E2, E1, app_assoc, length_app.
    split; [reflexivity | lia].
Qed.

Lemma drops_and_sends_mono n m w w' :
  (n <= m)%nat -> drops_and_sends n w w' -> drops_and_sends m w w'.
Proof.
  intros Hnm (Hs & s & E & L). split; [exact Hs|]. exists s.
  split; [exact E | lia].
Qed.

Lemma answer_sends message text w :
  drops_and_sends 1 w (snd (answer message text w)).
Proof.
  unfold answer. cbn [snd posts_table outbox]. split; [reflexivity|].
  eexists. split; [reflexivity|]. cbn. lia.
Qed.

Section Commands.

Variable CHAT_ID : Z.
Variable bot : Bot.

Lemma forward_post_effect message post w :
  drops_and_sends 1 w (snd (forward_post CHAT_ID bot message post w)).
Proof.
  unfold forward_post.
  destruct (forward_message bot _ _ _) as [[]|e].
  - cbn [snd]. split; [reflexivity|]. eexists. split; [reflexivity|].
    cbn. lia.
  - assert (Hdel : drops_and_sends 1 w
      (snd ((delete_post (message_id post);;
             answer message
               (MISSING_FORWARD_TEXT (message_url CHAT_ID (message_id post))))
              w))).
    { unfold mbind, M_bind, delete_post, answer, dynamo_delete.
      cbn [snd posts_table outbox]. split; [apply delete_subseteq|].
      eexists. split; [reflexivity|]. cbn. lia. }
    destruct e; try exact Hdel; apply drops_and_sends_refl.
Qed.

Lemma forward_posts_effect message posts w :
  drops_and_sends (length posts) w
    (snd (forward_posts CHAT_ID bot message posts w)).
Proof.
  revert w. induction posts as [|post posts IH]; intros w.
  - apply drops_and_sends_refl.
  - cbn [forward_posts length]. unfold mbind, M_bind.
    pose proof (forward_post_effect message post w) as H1.
    destruct (forward_post CHAT_ID bot message post w) as [[[]|e] w1];
      cbn [snd] in *.
    + apply (drops_and_sends_trans 1 (length posts) w w1); [exact H1 | apply IH].
    + eapply drops_and_sends_mono; [|exact H1]. lia.
Qed.

Lemma select_future_at_most today posts cap selected :
  0 <= cap -> select_future today posts cap = Ok selected ->
  (length selected <= Z.to_nat cap)%nat.
Proof.
  intros Hcap. unfold select_future, mbind, outcome_bind, mret, outcome_ret, obind.
  destruct (filter_future today posts) as [l|]; [|discriminate].
  destruct (sort_by_event_date l) as [sorted|]; [|discriminate].
  intros [= <-]. unfold slice_to.
  destruct (Z.ltb_spec cap 0); [lia|]. rewrite length_take. lia.
Qed.

Lemma future_events_command_drops today message w :
  drops_and_sends 3 w
    (exec (handle_future_events_command CHAT_ID bot today message) w).
Proof.
  unfold exec. rewrite future_events_command_run.
  destruct (mapM dynamo_parse_post _) as [posts|e];
    [|apply drops_and_sends_refl].
  destruct (find_posts posts None (Some EVENT)) as [|post l].
  - eapply drops_and_sends_mono; [|apply answer_sends]. lia.
  - destruct (select_future_events today posts 3) as [[|p sel]|e] eqn:E.
    + eapply drops_and_sends_mono; [|apply answer_sends]. lia.
    + apply select_future_at_most in E; [|lia].
      eapply drops_and_sends_mono; [|apply forward_posts_effect]. exact E.
    + apply drops_and_sends_refl.
Qed.

(** X16: [handle_future_events_command] never adds or changes an item of
    the table: whatever the transport does, the table after it holds a
    part of the items it held before; and it sends at most 3 messages. *)
Theorem future_events_command_effect today message w :
  drops_and_sends 3 w
    (exec (handle_future_events_command CHAT_ID bot today message) w).
Proof. apply future_events_command_drops. Qed.

(** X17: what [handle_future_events_command] answers when there is
    nothing to forward.  When the snapshot has no post of type [event] it
    answers that no such posts were found; when it has some, all dated
    and all before today, it answers that no events are ahead; in both
    cases it returns and leaves the table alone. *)
Theorem future_events_command_nothing today message w posts :
  read_posts w = (Ok posts, w) ->
  ((forall post, post ∈ posts -> type post <> EVENT) ->
   handle_future_events_command CHAT_ID bot today message w
   = answer message (MISSING_POSTS_TEXT EVENT) w) /\
  ((exists post, post ∈ posts /\ type post = EVENT) ->
   (forall post, post ∈ posts -> type post = EVENT ->
      exists d, event_date post = Some d /\ date_ge d today = false) ->
   handle_future_events_command CHAT_ID bot today message w
   = answer message NO_FUTURE_EVENTS_TEXT w).
Proof.
  intros Hr. unfold read_posts in Hr. injection Hr as Hr.
  rewrite future_events_command_run, Hr. split.
  - intros Hnone.
    assert (E : find_posts posts None (Some EVENT) = []).
    { rewrite find_posts_event. clear Hr.
      induction posts as [|p posts IH]; [reflexivity|]. cbn [List.filter].
      rewrite bool_decide_eq_false_2 by (apply Hnone; left).
      apply IH. intros post Hin. apply Hnone. right. exact Hin. }
    rewrite E. reflexivity.
  - intros (ev & Hev & Hty) Hpast.
    assert (Hd : Forall (fun post => is_Some (event_date post))
                   (find_posts posts None (Some EVENT))).
    { rewrite find_posts_event. apply Forall_forall. intros post Hin.
      apply list_elem_of_In, filter_In in Hin as [Hin Ht].
      apply bool_decide_eq_true in Ht. apply list_elem_of_In in Hin.
      destruct (Hpast post Hin Ht) as (d & Ed & _). rewrite Ed. eauto. }
    destruct (select_future_Ok today _ 3 Hd) as (sorted & E & Hp & _).
    rewrite select_future_events_filter in Hp.
    assert (Hnil : List.filter (is_future_event today) posts = []).
    { clear -Hpast. induction posts as [|p posts IH]; [reflexivity|].
      cbn [List.filter].
      assert (Hp : is_future_event today p = false).
      { unfold is_future_event.
        destruct (bool_decide_reflect (type p = EVENT)) as [Ht|Ht];
          [|reflexivity].
        destruct (Hpast p ltac:(left) Ht) as (d & -> & Hlt). exact Hlt. }
      rewrite Hp. apply IH. intros post Hin. apply Hpast. right. exact Hin. }
    rewrite Hnil in Hp. apply Permutation_nil_r in Hp. subst sorted.
    assert (Hne : find_posts posts None (Some EVENT) <> []).
    { rewrite find_posts_event. intros Hnil'.
      assert (Hin : In ev (List.filter
                (fun post => bool_decide (type post = EVENT)) posts)).
      { apply filter_In. split; [apply list_elem_of_In, Hev|].
        apply bool_decide_eq_true, Hty. }
      rewrite Hnil' in Hin. exact Hin. }
    destruct (find_posts posts None (Some EVENT)) as [|p l] eqn:Ef;
      [congruence|].
    unfold select_future_events. rewrite Ef, E. reflexivity.
Qed.

End Commands.

Lemma future_events_command_nothing_witness :
  let w := mkWorld
    {[ 5 := dynamo_format_post (mkPost 5 EVENT (Some (mkDate 2000 1 1))) ]} [] in
  let message := Message.mk 900 77 (Some (str "/future_events")) in
  let bot := mkBot (fun _ _ _ => Ok ()) in
  handle_future_events_command (-1001627609834) bot (mkDate 2024 1 1) message w
  = answer message NO_FUTURE_EVENTS_TEXT w.
Proof.
  intros w message bot.
  apply (proj2 (future_events_command_nothing (-1001627609834) bot
                  (mkDate 2024 1 1) message w
                  [mkPost 5 EVENT (Some (mkDate 2000 1 1))] eq_refl)).
  - exists (mkPost 5 EVENT (Some (mkDate 2000 1 1))).
    split; [apply list_elem_of_singleton|]; reflexivity.
  - intros post Hin _. apply list_elem_of_singleton in Hin as ->.
    exists (mkDate 2000 1 1). split; reflexivity.
Defined.


Lemma find_post_type_None posts ty :
  (forall post, post ∈ posts -> type post <> ty) ->
  find_post posts None (Some ty) = None.
Proof.
  intros H. unfold find_post, find_posts. apply head_filter_None.
  intros post Hin. destruct ty as [|c ty]; [reflexivity|].
  apply bool_decide_eq_false_2, H, Hin.
Qed.

Lemma keyed_subseteq (table table' : Table) :
  table' ⊆ table -> keyed table -> keyed table'.
Proof.
  intros Hsub Hk key item H. apply (Hk key item).
  eapply lookup_weaken; eassumption.
Qed.

Lemma keyed_insert_post table post :
  keyed table -> keyed (<[message_id post := dynamo_format_post post]> table).
Proof.
  intros Hk key item. rewrite lookup_insert.
  destruct (decide (message_id post = key)) as [<- | _].
  - intros [= <-]. apply item_key_format.
  - apply Hk.
Qed.

Section CommandsMore.

Variable CHAT_ID : Z.
Variable bot : Bot.

Lemma forward_post_Ok message post w w' :
  forward_post CHAT_ID bot message post w = (Ok (), w') ->
  exists sent, outbox w' = outbox w ++ [sent].
Proof.
  unfold forward_post.
  destruct (forward_message bot _ _ _) as [[]|e].
  - intros [= <-]. cbn [outbox]. eauto.
  - destruct e; try discriminate;
      unfold mbind, M_bind, delete_post, answer;
      intros [= <-]; cbn [outbox]; eauto.
Qed.

Lemma nav_command_drops message ty w :
  drops_and_sends 1 w (exec (handle_nav_command CHAT_ID bot message ty) w).
Proof.
  unfold exec, handle_nav_command, mbind, M_bind, read_posts.
  destruct (mapM dynamo_parse_post _) as [posts|e];
    [|apply drops_and_sends_refl].
  destruct (find_post posts None (Some ty)) as [post|].
  - apply forward_post_effect.
  - apply answer_sends.
Qed.

(** X18: [handle_nav_command] never adds or changes an item of the
    table; when it returns it has sent exactly one message; and when the
    snapshot has no post of the type asked for, that message is the
    notice that no such posts were found, and the table is left alone. *)
Theorem nav_command_effect message ty w :
  drops_and_sends 1 w (exec (handle_nav_command CHAT_ID bot message ty) w) /\
  (forall w',
     handle_nav_command CHAT_ID bot message ty w = (Ok (), w') ->
     exists sent, outbox w' = outbox w ++ [sent]) /\
  (forall posts,
     read_posts w = (Ok posts, w) ->
     (forall post, post ∈ posts -> type post <> ty) ->
     handle_nav_command CHAT_ID bot message ty w
     = answer message (MISSING_POSTS_TEXT ty) w).
Proof.
  split; [apply nav_command_drops|].
  unfold handle_nav_command, mbind, M_bind, read_posts. split.
  - intros w'. destruct (mapM dynamo_parse_post _) as [posts|e];
      [|discriminate].
    destruct (find_post posts None (Some ty)) as [post|].
    + apply forward_post_Ok.
    + unfold answer. intros [= <-]. cbn [outbox]. eauto.
  - intros posts [= ->] Hnone.
    rewrite (find_post_type_None posts ty Hnone). reflexivity.
Qed.

(** X19: the handlers keep the table keyed: when every item carries the
    key it is stored under, so does every item after a chat handler,
    [forward_post] or a query command has run. *)
Theorem handlers_keep_keyed w :
  keyed (posts_table w) ->
  (forall message,
     keyed (posts_table (exec (handle_chat_new_message message) w)) /\
     keyed (posts_table (exec (handle_chat_edited_message message) w))) /\
  (forall message post,
     keyed (posts_table (exec (forward_post CHAT_ID bot message post) w))) /\
  (forall message ty,
     keyed (posts_table (exec (handle_nav_command CHAT_ID bot message ty) w))) /\
  (forall today message,
     keyed (posts_table
              (exec (handle_future_events_command CHAT_ID bot today message) w))).
Proof.
  intros Hk. split; [|split; [|split]].
  - intros message. unfold exec.
    rewrite new_message_run, edited_message_run.
    destruct (parse_message_footer message) as [[footer|]|e];
      cbn [snd posts_table]; try (split; exact Hk).
    + split; apply (keyed_insert_post _ (footer_post message footer) Hk).
    + split; [exact Hk|].
      destruct (mapM dynamo_parse_post _) as [posts|e]; [|exact Hk].
      destruct (find_post posts _ _); cbn [snd posts_table]; [|exact Hk].
      eapply keyed_subseteq; [apply delete_subseteq | exact Hk].
  - intros message post.
    eapply keyed_subseteq; [apply forward_post_effect | exact Hk].
  - intros message ty.
    eapply keyed_subseteq; [|exact Hk].
    apply nav_command_drops.
  - intros today message.
    eapply keyed_subseteq; [|exact Hk].
    apply future_events_command_drops.
Qed.

End CommandsMore.

Lemma nav_command_effect_witness :
  let w := mkWorld
    {[ 5 := dynamo_format_post (mkPost 5 EVENT (Some (mkDate 2000 1 1))) ]} [] in
  let message := Message.mk 900 77 (Some (str "/contacts")) in
  let bot := mkBot (fun _ _ _ => Ok ()) in
  handle_nav_command (-1001627609834) bot message CONTACTS w
  = answer message (MISSING_POSTS_TEXT CONTACTS) w.
Proof.
  intros w message bot.
  apply (proj2 (proj2 (nav_command_effect (-1001627609834) bot message
                         CONTACTS w))
           [mkPost 5 EVENT (Some (mkDate 2000 1 1))] eq_refl).
  intros post Hin. apply list_elem_of_singleton in Hin as ->.
  intros E. cbv in E. discriminate E.
Defined.

Lemma handlers_keep_keyed_witness :
  keyed (posts_table
           (exec (handle_chat_new_message
                    (Message.mk 42 7 (Some (str "see #contacts"))))
              (mkWorld ∅ []))).
Proof.
  apply (handlers_keep_keyed 0 (mkBot (fun _ _ _ => Ok ())) (mkWorld ∅ [])).
  intros key item H. cbn [posts_table] in H. rewrite lookup_empty in H.
  discriminate H.
Defined.

(** X20: the directory heals itself.  On a keyed table, once
    [forward_post] has met one of the two "message not found" exceptions
    for a post, no post of that [message_id] is read from the table any
    more, so the message is not forwarded again. *)
Theorem forward_post_heals CHAT_ID bot message post w e posts :
  keyed (posts_table w) ->
  forward_message bot (Message.chat_id message) CHAT_ID (message_id post)
  = Raised e ->
  e = MessageToForwardNotFound \/ e = MessageIdInvalid ->
  let w' := exec (forward_post CHAT_ID bot message post) w in
  read_posts w' = (Ok posts, w') ->
  forall other, other ∈ posts -> message_id other <> message_id post.
Proof.
  intros Hk Hf He w' Hr other Hin.
  assert (Ew : posts_table w' = delete (message_id post) (posts_table w)).
  { unfold w', exec, forward_post. rewrite Hf.
    destruct He as [-> | ->]; reflexivity. }
  assert (Hk' : keyed (posts_table w')).
  { rewrite Ew. eapply keyed_subseteq; [apply delete_subseteq | exact Hk]. }
  destruct (read_posts_keyed w' posts other Hk' Hr Hin) as (item & Hitem & _).
  rewrite Ew in Hitem. apply lookup_delete_Some in Hitem as [Hne _].
  congruence.
Qed.

Lemma forward_post_heals_witness :
  let bot := mkBot (fun _ _ _ => Raised MessageToForwardNotFound) in
  let message := Message.mk 900 77 (Some (str "/contacts")) in
  let post := mkPost 21 CONTACTS None in
  let w := mkWorld
    {[ 21 := dynamo_format_post post;
       22 := dynamo_format_post (mkPost 22 CHATS None) ]} [] in
  read_posts (exec (forward_post (-1001627609834) bot message post) w)
  = (Ok [mkPost 22 CHATS None],
     exec (forward_post (-1001627609834) bot message post) w) /\
  message_id (mkPost 22 CHATS None) <> message_id post.
Proof.
  intros bot message post w.
  assert (Hr : read_posts (exec (forward_post (-1001627609834) bot message post) w)
               = (Ok [mkPost 22 CHATS None],
                  exec (forward_post (-1001627609834) bot message post) w))
    by (vm_compute; reflexivity).
  split; [exact Hr|].
  apply (forward_post_heals (-1001627609834) bot message post w
           MessageToForwardNotFound [mkPost 22 CHATS None]).
  - intros key item H. unfold w in H. cbn [posts_table] in H.
    rewrite lookup_insert in H. case_decide.
    + injection H as <-. subst key. apply item_key_format.
    + apply lookup_singleton_Some in H as [<- <-]. apply item_key_format.
  - reflexivity.
  - left. reflexivity.
  - exact Hr.
  - apply list_elem_of_singleton. reflexivity.
Defined.

(* ===================================================================== *)
(** * The membership middleware                                           *)
(* ===================================================================== *)

(** X21: [ChatMemberMiddleware] lets a message through exactly when it
    comes from a private chat and [get_chat_member] finds its sender in
    [CHAT_ID] with a status other than [LEFT] and [BANNED], or comes from
    the chat [CHAT_ID] itself.  It never touches the table; it sends
    something only when it cancels a private message, and then exactly
    the notice [NOT_CHAT_MEMBER_TEXT] to that chat. *)
Theorem chat_member_middleware CHAT_ID get_chat_member update w :
  let run := on_pre_process_message CHAT_ID get_chat_member update w in
  (fst run = Ok Proceed <->
   (chat_type update = PRIVATE /\
    exists status,
      get_chat_member CHAT_ID (from_user_id update) = ChatMember status /\
      status <> LEFT /\ status <> BANNED) \/
   (chat_type update <> PRIVATE /\
    Message.chat_id (update_message update) = CHAT_ID)) /\
  posts_table (snd run) = posts_table w /\
  (fst run = Ok CancelHandler -> chat_type update = PRIVATE ->
   outbox (snd run) =
   outbox w ++ [Answered (Message.chat_id (update_message update))
                  NOT_CHAT_MEMBER_TEXT]) /\
  (fst run <> Ok CancelHandler \/ chat_type update <> PRIVATE ->
   snd run = w).
Proof.
  cbv zeta.
  set (notice := Answered (Message.chat_id (update_message update))
                   NOT_CHAT_MEMBER_TEXT).
  assert (Hprivate : chat_type update = PRIVATE ->
    on_pre_process_message CHAT_ID get_chat_member update w =
    match get_chat_member CHAT_ID (from_user_id update) with
    | ChatMember LEFT | ChatMember BANNED | UserNotFound =>
      (Ok CancelHandler, mkWorld (posts_table w) (outbox w ++ [notice]))
    | ChatMember _ => (Ok Proceed, w)
    | ChatMemberError e => (Raised e, w)
    end).
  { intros E. unfold on_pre_process_message, is_chat_member, mbind, M_bind,
      lift. rewrite E.
    destruct (get_chat_member CHAT_ID (from_user_id update)) as [[]| |e];
      reflexivity. }
  assert (Hother : chat_type update <> PRIVATE ->
    on_pre_process_message CHAT_ID get_chat_member update w =
    if Message.chat_id (update_message update) =? CHAT_ID
    then (Ok Proceed, w) else (Ok CancelHandler, w)).
  { intros E. unfold on_pre_process_message.
    destruct (chat_type update); try congruence;
      destruct (Message.chat_id (update_message update) =? CHAT_ID);
      reflexivity. }
  assert (Hdec : chat_type update = PRIVATE \/ chat_type update <> PRIVATE)
    by (destruct (chat_type update); (left; reflexivity) || (right; discriminate)).
  destruct Hdec as [Ep | Ep].
  - rewrite (Hprivate Ep).
    destruct (get_chat_member CHAT_ID (from_user_id update))
      as [status| |e] eqn:Eg.
    + destruct status; cbn [fst snd posts_table outbox];
        (split; [split|split; [reflexivity|split]]);
        try (intros [=]); try reflexivity;
        try (left; split; [exact Ep|]; eexists;
             split; [reflexivity | split; discriminate]);
        try (intros [(_ & s & [= <-] & H1 & H2) | (Hn & _)]; congruence);
        try (intros [Hn | Hn]; congruence).
    + cbn [fst snd posts_table outbox].
      split; [split|split; [reflexivity|split]];
        try (intros [=]); try reflexivity.
      * intros [(_ & s & [=] & _) | (Hn & _)]; congruence.
      * intros [Hn | Hn]; congruence.
    + cbn [fst snd posts_table outbox].
      split; [split|split; [reflexivity|split]];
        try (intros [=]); try reflexivity.
      intros [(_ & s & [=] & _) | (Hn & _)]; congruence.
  - rewrite (Hother Ep).
    destruct (Z.eqb_spec (Message.chat_id (update_message update)) CHAT_ID)
      as [Ec | Ec]; cbn [fst snd posts_table outbox];
      (split; [split|split; [reflexivity|split]]);
      try (intros [=]); try reflexivity; try congruence.
    + right. split; assumption.
    + intros [(Hp & _) | (_ & Hc)]; congruence.
Qed.

Lemma chat_member_middleware_witness :
  let update := mkUpdate (Message.mk 900 77 (Some (str "/start"))) PRIVATE 77 in
  let run := on_pre_process_message (-1001627609834) (fun _ _ => UserNotFound)
               update (mkWorld ∅ []) in
  outbox (snd run) = [] ++ [Answered 77 NOT_CHAT_MEMBER_TEXT].
Proof.
  intros update run.
  apply (chat_member_middleware (-1001627609834) (fun _ _ => UserNotFound)
           update (mkWorld ∅ [])); reflexivity.
Defined.

(* ===================================================================== *)
(** * Message links                                                       *)
(* ===================================================================== *)

Lemma uint_codes_no_slash d : 47%N ∉ uint_codes d.
Proof.
  induction d; cbn [uint_codes]; rewrite ?elem_of_cons, ?elem_of_nil;
    intros H; try (destruct H as [H | H]; [discriminate H | exact (IHd H)]).
  exact H.
Qed.

Lemma str_of_int_no_slash z : 47%N ∉ str_of_int z.
Proof.
  unfold str_of_int. destruct (Z.to_int z).
  - apply uint_codes_no_slash.
  - rewrite elem_of_cons. intros [H | H]; [discriminate H|].
    exact (uint_codes_no_slash _ H).
Qed.

Lemma str_of_int_inj a b : str_of_int a = str_of_int b -> a = b.
Proof.
  intros E. pose proof (int_of_str_of_int a) as Ha.
  rewrite E, int_of_str_of_int in Ha. congruence.
Qed.

Lemma app_separator_inj {A} (x : A) l1 l2 r1 r2 :
  x ∉ l1 -> x ∉ l2 -> l1 ++ x :: r1 = l2 ++ x :: r2 -> l1 = l2 /\ r1 = r2.
Proof.
  revert l2. induction l1 as [|a l1 IH]; intros [|b l2] H1 H2 E;
    cbn [app] in E.
  - injection E as ->. auto.
  - injection E as <- _. exfalso. apply H2. left.
  - injection E as -> _. exfalso. apply H1. left.
  - injection E as <- E. apply not_elem_of_cons in H1 as [_ H1].
    apply not_elem_of_cons in H2 as [_ H2].
    destruct (IH l2 H1 H2 E) as [-> ->]. auto.
Qed.

(** X22: [message_url] turns the chat id [-1000000000000 - n] of a
    supergroup and a message id into the link [https://t.me/c/n/id], and
    different pairs of chat id and message id get different links. *)
Theorem message_url_link :
  (forall n message_id,
     message_url (-1000000000000 - n) message_id
     = str "https://t.me/c/" ++ str_of_int n ++ str "/"
       ++ str_of_int message_id) /\
  (forall chat_id message_id chat_id' message_id',
     message_url chat_id message_id = message_url chat_id' message_id' ->
     chat_id = chat_id' /\ message_id = message_id').
Proof.
  split.
  - intros n mid. unfold message_url. cbv zeta.
    replace (-1000000000000 - (-1000000000000 - n)) with n by lia.
    reflexivity.
  - intros c m c' m'. unfold message_url. cbv zeta. intros E.
    apply app_inv_head in E.
    change (str "/") with [47%N] in E. cbn [app] in E.
    apply app_separator_inj in E as [E1 E2]; try apply str_of_int_no_slash.
    apply str_of_int_inj in E1, E2. split; [lia | exact E2].
Qed.

Lemma message_url_link_witness :
  message_url (-1001627609834) 21 = str "https://t.me/c/1627609834/21".
Proof.
  apply (proj1 message_url_link 1627609834 21).
Defined.

(* ===================================================================== *)
(** * The directory the bot keeps                                         *)
(* ===================================================================== *)

Lemma directory_ok_readable table : directory_ok table -> readable table.
Proof.
  intros H key item Hk. destruct (H key item Hk) as (post & -> & _ & _ & Hv).
  exists post. apply dynamo_parse_format, Hv.
Qed.

Lemma directory_ok_keyed table : directory_ok table -> keyed table.
Proof.
  intros H key item Hk. destruct (H key item Hk) as (post & -> & <- & _).
  apply item_key_format.
Qed.

Lemma directory_ok_subseteq (table table' : Table) :
  table' ⊆ table -> directory_ok table -> directory_ok table'.
Proof.
  intros Hsub H key item Hk. apply (H key item).
  eapply lookup_weaken; eassumption.
Qed.

Lemma directory_ok_insert table post :
  post_dated_iff_event post ->
  (forall d, event_date post = Some d -> date_valid d = true) ->
  directory_ok table ->
  directory_ok (<[message_id post := dynamo_format_post post]> table).
Proof.
  intros Hi Hv H key item. rewrite lookup_insert.
  destruct (decide (message_id post = key)) as [<- | _].
  - intros [= <-]. exists post. auto.
  - apply H.
Qed.

Lemma directory_ok_read w :
  directory_ok (posts_table w) ->
  exists posts,
    read_posts w = (Ok posts, w) /\
    forall post, post ∈ posts ->
      post_dated_iff_event post /\ stored w post.
Proof.
  intros H. destruct (readable_scan _ (directory_ok_readable _ H)) as (posts & E).
  exists posts. unfold read_posts. rewrite E. split; [reflexivity|].
  intros post Hin.
  destruct (mapM_Ok_elem_of_inv _ _ _ _ E Hin) as (item & Hitem & Ep).
  apply elem_of_dynamo_scan in Hitem as (key & Hkey).
  destruct (H key item Hkey) as (post' & -> & <- & Hi & Hv).
  rewrite (dynamo_parse_format post' Hv) in Ep. injection Ep as <-.
  split; [exact Hi | exact Hkey].
Qed.

Section Directory.

Variable CHAT_ID : Z.
Variable bot : Bot.

Lemma forward_post_tolerated message post w :
  tolerated (forward_message bot (Message.chat_id message) CHAT_ID
               (message_id post)) ->
  forward_post CHAT_ID bot message post w =
  (Ok (),
   mkWorld (drop_stale CHAT_ID bot message [post] (posts_table w))
     (outbox w ++ [reply_to CHAT_ID bot message post])).
Proof.
  unfold forward_post, reply_to, drop_stale, stale. cbn [fold_left].
  intros [-> | [-> | ->]]; reflexivity.
Qed.

Lemma forward_posts_tolerated message posts w :
  (forall post, post ∈ posts ->
     tolerated (forward_message bot (Message.chat_id message) CHAT_ID
                  (message_id post))) ->
  forward_posts CHAT_ID bot message posts w =
  (Ok (),
   mkWorld (drop_stale CHAT_ID bot message posts (posts_table w))
     (outbox w ++ (reply_to CHAT_ID bot message <$> posts))).
Proof.
  revert w. induction posts as [|post posts IH]; intros w Ht.
  - cbn. rewrite app_nil_r. destruct w; reflexivity.
  - cbn [forward_posts]. unfold mbind, M_bind.
    rewrite forward_post_tolerated by (apply Ht; left).
    rewrite IH by (intros p Hp; apply Ht; right; exact Hp).
    cbn [posts_table outbox fmap list_fmap]. rewrite <- app_assoc.
    reflexivity.
Qed.

(** X23: the directory invariant.  The empty table is a directory as the
    bot writes it, and a table that is one stays one under the two chat
    handlers, [forward_post] and the two query commands; from such a
    table [read_posts] returns, and every post it returns is stored
    under its [message_id] and has a date exactly when its type is
    [event]. *)
Theorem directory_invariant w :
  directory_ok (posts_table w) ->
  (forall message,
     directory_ok (posts_table (exec (handle_chat_new_message message) w)) /\
     directory_ok (posts_table (exec (handle_chat_edited_message message) w))) /\
  (forall message post,
     directory_ok (posts_table (exec (forward_post CHAT_ID bot message post) w))) /\
  (forall message ty,
     directory_ok
       (posts_table (exec (handle_nav_command CHAT_ID bot message ty) w))) /\
  (forall today message,
     directory_ok
       (posts_table
          (exec (handle_future_events_command CHAT_ID bot today message) w))) /\
  (exists posts,
     read_posts w = (Ok posts, w) /\
     forall post, post ∈ posts -> post_dated_iff_event post /\ stored w post).
Proof.
  intros H. split; [|split; [|split; [|split]]].
  - intros message. unfold exec.
    rewrite new_message_run, edited_message_run.
    destruct (parse_message_footer message) as [[footer|]|e] eqn:Ep;
      cbn [snd posts_table]; try (split; exact H).
    + destruct (footer_post_invariant message footer Ep) as (Hi & _ & Hv).
      split; apply (directory_ok_insert _ (footer_post message footer));
        assumption.
    + split; [exact H|].
      destruct (mapM dynamo_parse_post _) as [posts|e]; [|exact H].
      destruct (find_post posts _ _); cbn [snd posts_table]; [|exact H].
      eapply directory_ok_subseteq; [apply delete_subseteq | exact H].
  - intros message post.
    eapply directory_ok_subseteq; [apply forward_post_effect | exact H].
  - intros message ty.
    eapply directory_ok_subseteq; [apply nav_command_drops | exact H].
  - intros today message.
    eapply directory_ok_subseteq; [apply future_events_command_drops | exact H].
  - apply directory_ok_read, H.
Qed.

(** X24: on a directory as the bot writes it, the two query commands
    get through their own computations: [read_posts] fails on no item and
    [select_future] does not raise (every post of type [event] has its
    date).  [handle_nav_command] is then the forward of the first post
    of the type, or the answer that no such posts were found;
    [handle_future_events_command] is the answer that no event posts
    were found, the answer that no events are ahead, or the forwarding
    of the selected posts. *)
Theorem query_commands_read_and_select today message ty w :
  directory_ok (posts_table w) ->
  exists posts selected,
    read_posts w = (Ok posts, w) /\
    select_future_events today posts 3 = Ok selected /\
    handle_nav_command CHAT_ID bot message ty w =
    match find_post posts None (Some ty) with
    | Some post => forward_post CHAT_ID bot message post w
    | None => answer message (MISSING_POSTS_TEXT ty) w
    end /\
    handle_future_events_command CHAT_ID bot today message w =
    match find_posts posts None (Some EVENT), selected with
    | [], _ => answer message (MISSING_POSTS_TEXT EVENT) w
    | _ :: _, [] => answer message NO_FUTURE_EVENTS_TEXT w
    | _ :: _, _ :: _ => forward_posts CHAT_ID bot message selected w
    end.
Proof.
  intros H.
  destruct (directory_ok_read w H) as (posts & Er & Hposts).
  assert (Hd : Forall (fun post => is_Some (event_date post))
                 (find_posts posts None (Some EVENT))).
  { rewrite find_posts_event. apply Forall_forall. intros post Hin.
    apply list_elem_of_In, filter_In in Hin as [Hin Hty].
    apply bool_decide_eq_true in Hty. apply list_elem_of_In in Hin.
    apply (proj1 (Hposts post Hin)), Hty. }
  destruct (select_future_Ok today _ 3 Hd) as (sorted & E & _).
  exists posts, (slice_to 3 sorted).
  split; [exact Er|]. split; [exact E|]. split.
  - unfold handle_nav_command, mbind, M_bind. rewrite Er.
    destruct (find_post posts None (Some ty)); reflexivity.
  - rewrite future_events_command_run.
    unfold read_posts in Er. injection Er as Er. rewrite Er.
    unfold select_future_events. rewrite E.
    destruct (find_posts posts None (Some EVENT)) as [|p l]; [reflexivity|].
    destruct (slice_to 3 sorted); reflexivity.
Qed.

(** X25: when the selection of the events ahead is not empty and the
    transport forwards each selected message or reports it as not found,
    [handle_future_events_command] returns having sent one message per
    selected post, in the order of the selection (the forward, or the
    notice that the post has vanished), and having deleted exactly the
    posts reported as not found. *)
Theorem future_events_command_forwards today message w posts selected :
  read_posts w = (Ok posts, w) ->
  select_future_events today posts 3 = Ok selected ->
  selected <> [] ->
  (forall post, post ∈ selected ->
     tolerated (forward_message bot (Message.chat_id message) CHAT_ID
                  (message_id post))) ->
  handle_future_events_command CHAT_ID bot today message w =
  (Ok (),
   mkWorld (drop_stale CHAT_ID bot message selected (posts_table w))
     (outbox w ++ (reply_to CHAT_ID bot message <$> selected))).
Proof.
  intros Er Es Hne Ht. rewrite future_events_command_run.
  unfold read_posts in Er. injection Er as Er. rewrite Er.
  destruct (find_posts posts None (Some EVENT)) as [|p l] eqn:Ef.
  - unfold select_future_events in Es. rewrite Ef in Es.
    cbv in Es. congruence.
  - rewrite Es. destruct selected as [|q sel]; [congruence|].
    apply forward_posts_tolerated, Ht.
Qed.

End Directory.

Lemma directory_invariant_witness :
  directory_ok
    (posts_table
       (exec (handle_chat_new_message
                (Message.mk 42 7 (Some (str "party #event 2030-05-01"))))
          (mkWorld ∅ []))).
Proof.
  apply (directory_invariant 0 (mkBot (fun _ _ _ => Ok ())) (mkWorld ∅ [])).
  intros key item H. cbn [posts_table] in H. rewrite lookup_empty in H.
  discriminate H.
Defined.

Lemma query_commands_read_and_select_witness :
  let bot := mkBot (fun _ _ message_id =>
    if message_id =? 8 then Raised MessageToForwardNotFound else Ok ()) in
  let message := Message.mk 900 77 (Some (str "/future_events")) in
  let later := mkPost 8 EVENT (Some (mkDate 2099 6 1)) in
  let sooner := mkPost 9 EVENT (Some (mkDate 2099 1 1)) in
  let chats := mkPost 3 CHATS None in
  let w := mkWorld
    {[ 8 := dynamo_format_post later; 9 := dynamo_format_post sooner;
       3 := dynamo_format_post chats ]} [] in
  handle_nav_command (-1001627609834) bot message CHATS w
  = forward_post (-1001627609834) bot message chats w /\
  handle_future_events_command (-1001627609834) bot (mkDate 2024 1 1) message w
  = forward_posts (-1001627609834) bot message [sooner; later] w.
Proof.
  intros bot message later sooner chats w.
  destruct (query_commands_read_and_select (-1001627609834) bot
              (mkDate 2024 1 1) message CHATS w)
    as (posts & selected & Er & Es & Hnav & Hfuture).
  - unfold w. cbn [posts_table].
    apply (directory_ok_insert _ later);
      [split; [reflexivity | eauto] | intros d [= <-]; reflexivity |].
    apply (directory_ok_insert _ sooner);
      [split; [reflexivity | eauto] | intros d [= <-]; reflexivity |].
    rewrite <- insert_empty.
    apply (directory_ok_insert _ chats).
    + split; [intros [? [=]] | intros E; cbv in E; discriminate E].
    + intros d [=].
    + intros key item H. rewrite lookup_empty in H. discriminate H.
  - vm_compute in Er. injection Er as <-.
    vm_compute in Es. injection Es as <-.
    rewrite Hnav, Hfuture. split; reflexivity.
Defined.

Lemma future_events_command_forwards_witness :
  let bot := mkBot (fun _ _ message_id =>
    if message_id =? 8 then Raised MessageToForwardNotFound else Ok ()) in
  let message := Message.mk 900 77 (Some (str "/future_events")) in
  let later := mkPost 8 EVENT (Some (mkDate 2099 6 1)) in
  let sooner := mkPost 9 EVENT (Some (mkDate 2099 1 1)) in
  let w := mkWorld
    {[ 8 := dynamo_format_post later; 9 := dynamo_format_post sooner ]} [] in
  handle_future_events_command (-1001627609834) bot (mkDate 2024 1 1) message w
  = (Ok (),
     mkWorld
       (drop_stale (-1001627609834) bot message [sooner; later] (posts_table w))
       (outbox w ++ (reply_to (-1001627609834) bot message <$> [sooner; later]))).
Proof.
  intros bot message later sooner w.
  destruct (fst (read_posts w)) as [posts|] eqn:Er; [|vm_compute in Er; discriminate Er].
  apply (future_events_command_forwards (-1001627609834) bot (mkDate 2024 1 1)
           message w posts [sooner; later]).
  - unfold read_posts in *. cbn [fst] in Er. rewrite Er. reflexivity.
  - vm_compute in Er. injection Er as <-. vm_compute. reflexivity.
  - discriminate.
  - intros post Hin. rewrite !elem_of_cons, elem_of_nil in Hin.
    destruct Hin as [-> | [-> | []]].
    + left. reflexivity.
    + right. left. reflexivity.
Defined.

Lemma chat_handlers_frame_witness :
  let message := Message.mk 42 7 (Some (str "see #contacts")) in
  let w := mkWorld {[ 5 := dynamo_format_post (mkPost 5 CHATS None) ]} [] in
  posts_table (exec (handle_chat_new_message message) w) !! 5
  = posts_table w !! 5.
Proof.
  intros message w.
  apply (proj2 (proj2 (chat_handlers_frame message w)) 5).
  unfold message. cbn. lia.
Defined.

Lemma parse_post_footer_raises_iff_witness :
  parse_post_footer (str "party #event 2030-02-30") = Raised ValueError.
Proof.
  apply (proj2 (parse_post_footer_raises_iff
                  (str "party #event 2030-02-30") ValueError)).
  split; [reflexivity|]. exists 6%nat, (str "2030-02-30").
  split; [|split].
  - apply event_tag_at_check; vm_compute; reflexivity.
  - apply no_event_tag_before_check. each_offset.
  - vm_compute. reflexivity.
Defined.
